(** * POE-OCR: the image-to-alert pipeline of [ocr.py]

    A shallow embedding of the functions of [ocr.py] and the properties of
    its colour isolation, region extraction, fuzzy phrase matching and
    alerting.

    Conventions.
    - A Python [str] is a [string]; a character is a code point below 256.
    - A similarity ratio is an exact rational ([Q]) where the library
      computes in double precision.
    - A Python function that can raise returns a [result]. *)

From Stdlib Require Import List String Ascii Bool Arith ZArith QArith Lia.
From Stdlib Require Import Sorting.Sorted Sorting.Permutation.
Import ListNotations.

Set Implicit Arguments.

Local Close Scope Q_scope.
Local Open Scope string_scope.
Local Open Scope list_scope.
Local Open Scope nat_scope.

(* ================================================================== *)
(** * Exceptions and results *)

Inductive exn : Type :=
| TypeError
| IndexError
| CollaboratorError (who : string).

Inductive result (A : Type) : Type :=
| Return (a : A)
| Raised (e : exn).

Arguments Return {A} a.
Arguments Raised {A} e.

Definition rbind {A B} (r : result A) (k : A -> result B) : result B :=
  match r with
  | Return a => k a
  | Raised e => Raised e
  end.

Notation "x <- r ;; k" := (rbind r (fun x => k))
  (at level 61, r at next level, right associativity).
Notation "' pat <- r ;; k" := (rbind r (fun x => match x with pat => k end))
  (at level 61, pat pattern, r at next level, right associativity).

(* ================================================================== *)
(** * Strings *)

Module PyStr.

(** [str.lower()] on one code point below 256: the capital letters A-Z and
    the capital letters of the Latin-1 supplement (U+00C0 to U+00DE, the
    multiplication sign U+00D7 apart) move up by 32. *)
Definition lower_char (c : ascii) : ascii :=
  let n := nat_of_ascii c in
  if ((65 <=? n) && (n <=? 90))
     || ((192 <=? n) && (n <=? 222) && negb (n =? 215))
  then ascii_of_nat (n + 32)
  else c.

Fixpoint lower (s : string) : string :=
  match s with
  | EmptyString => EmptyString
  | String c r => String (lower_char c) (lower r)
  end.

(** The characters [str.splitlines()] treats as a line boundary, below 256:
    LF, VT, FF, CR, FS, GS, RS and NEL.  CR LF counts as one boundary. *)
Definition is_linebreak (c : ascii) : bool :=
  let n := nat_of_ascii c in
  ((10 <=? n) && (n <=? 13)) || ((28 <=? n) && (n <=? 30)) || (n =? 133).

Definition CR : ascii := ascii_of_nat 13.
Definition LF : ascii := ascii_of_nat 10.

(** [cur] is the line being read, most recent character last. *)
Fixpoint splitlines_from (cur : string) (s : string) : list string :=
  match s with
  | EmptyString =>
      match cur with
      | EmptyString => []
      | _ => [cur]
      end
  | String c rest =>
      if is_linebreak c then
        match rest with
        | String c' rest' =>
            if Ascii.eqb c CR && Ascii.eqb c' LF
            then cur :: splitlines_from EmptyString rest'
            else cur :: splitlines_from EmptyString rest
        | EmptyString => cur :: splitlines_from EmptyString rest
        end
      else splitlines_from (String.append cur (String c EmptyString)) rest
  end.

Definition splitlines (s : string) : list string :=
  splitlines_from EmptyString s.

End PyStr.

(* ================================================================== *)
(** * The imported similarity ratio *)

Module Lv.

(** Modelled from the spec: the imported [Levenshtein] package is not part
    of the sources.  The spec asks for an edit-distance-based similarity
    ratio normalised to [0,1]; the package's [ratio] is the normalised
    insertion/deletion similarity, [1 - distance / (len1 + len2)], and 1.0
    when both strings are empty.  [indel_distance] is the least number of
    insertions and deletions that turn [s1] into [s2]. *)
Fixpoint indel_distance (s1 : string) : string -> nat :=
  fix against (s2 : string) : nat :=
    match s1, s2 with
    | EmptyString, _ => String.length s2
    | _, EmptyString => String.length s1
    | String a r1, String b r2 =>
        if Ascii.eqb a b then indel_distance r1 r2
        else S (Nat.min (indel_distance r1 s2) (against r2))
    end.

Definition Qnat (n : nat) : Q := inject_Z (Z.of_nat n).

(** Modelled from the spec: the normalised similarity of the imported
    package, a ratio in [0,1]: one minus the distance over the sum of the
    lengths, and 1 when that sum is 0. *)
Definition normalized_similarity (s1 s2 : string) : Q :=
  let maximum := String.length s1 + String.length s2 in
  let norm_dist :=
    if maximum =? 0 then 0%Q
    else (Qnat (indel_distance s1 s2) / Qnat maximum)%Q in
  (1 - norm_dist)%Q.

(** Modelled from the spec: [Levenshtein.ratio(s1, s2, score_cutoff=c)]
    (imported, not part of the sources) returns the ratio, and 0 in its
    place when the ratio is below the cutoff; without a cutoff it returns
    the ratio. *)
Definition ratio (s1 s2 : string) (score_cutoff : option Q) : Q :=
  let r := normalized_similarity s1 s2 in
  match score_cutoff with
  | None => r
  | Some c => if Qle_bool c r then r else 0%Q
  end.

End Lv.

(** Truth value of a Python float in a condition: non-zero. *)
Definition truthy (x : Q) : bool := negb (Qeq_bool x 0%Q).

(* ================================================================== *)
(** * Watch-list loading and phrase matching *)

(** [getSearchStrings]: [text] is what [file.read()] returns for the
    configuration file. *)
Definition getSearchStrings (text : string) : list string :=
  PyStr.splitlines text.

Definition score_cutoff : Q := (90 # 100)%Q.

(** One call of [Levenshtein.ratio] made by the matcher. *)
Definition comparison : Type := (string * string)%type.

(** The inner [for string in searchStrings] loop for one phrase.  The
    result is [true] as soon as a comparison is truthy ([return True]);
    the second component lists the comparisons made, in order. *)
Fixpoint matchPhrase (phrase : string) (searchStrings : list string)
  : bool * list comparison :=
  match searchStrings with
  | [] => (false, [])
  | s :: rest =>
      let call := (PyStr.lower phrase, s) in
      if truthy (Lv.ratio (PyStr.lower phrase) s (Some score_cutoff))
      then (true, [call])
      else let '(b, calls) := matchPhrase phrase rest in (b, call :: calls)
  end.

(** The outer [for phrase in phrases] loop. *)
Fixpoint hasMatchingPhrase_calls (phrases searchStrings : list string)
  : bool * list comparison :=
  match phrases with
  | [] => (false, [])
  | p :: rest =>
      let '(b, calls) := matchPhrase p searchStrings in
      if b then (true, calls)
      else let '(b', calls') := hasMatchingPhrase_calls rest searchStrings in
           (b', calls ++ calls')
  end.

Definition hasMatchingPhrase (phrases searchStrings : list string) : bool :=
  fst (hasMatchingPhrase_calls phrases searchStrings).

(** A pair meets the cutoff: the ratio of the lower-cased candidate and the
    target, as loaded, is at least 0.90. *)
Definition meets_cutoff (phrase target : string) : Prop :=
  (score_cutoff <= Lv.normalized_similarity (PyStr.lower phrase) target)%Q.

(** The argument pair of the comparison made for a candidate and a
    target. *)
Definition comparison_of (pair : string * string) : comparison :=
  (PyStr.lower (fst pair), snd pair).

(* ================================================================== *)
(** * Arrays and images *)

Module Np.

Inductive pyobj : Type :=
| PyInt (n : Z)
| PyList (l : list Z).

(** A zero-dimensional array (one scalar) or a vector. *)
Inductive ndarray : Type :=
| Arr0 (v : Z)
| Arr1 (data : list Z).

(** [numpy.array], imported by the program.  Its signature is
    [array(object, dtype=None, *, copy=True, ...)]: it builds a vector
    from a list and a zero-dimensional array from a scalar; an integer or
    a list is not a data type, and more than two positional arguments are
    rejected: each such call raises [TypeError]. *)
Definition array (args : list pyobj) : result ndarray :=
  match args with
  | [PyInt n] => Return (Arr0 n)
  | [PyList l] => Return (Arr1 l)
  | _ => Raised TypeError
  end.

End Np.

(** A captured pixel: blue, green, red, alpha. *)
Definition BGRA : Type := (Z * Z * Z * Z)%type.
(** Hue, saturation, value. *)
Definition HSV : Type := (Z * Z * Z)%type.
(** Images are lists of rows. *)
Definition Frame : Type := list (list BGRA).
Definition HSVImage : Type := list (list HSV).
Definition Mask : Type := list (list Z).
(** A bounding rectangle [(x, y, w, h)]. *)
Definition Rect : Type := (nat * nat * nat * nat)%type.

Definition rect_x (r : Rect) : nat := let '(x, _, _, _) := r in x.
Definition rect_w (r : Rect) : nat := let '(_, _, w, _) := r in w.
Definition rect_h (r : Rect) : nat := let '(_, _, _, h) := r in h.

(** What [cv.findContours] returns: (contours, hierarchy), or, in the
    older interface, (image, contours, hierarchy). *)
Inductive FindContoursResult (C H : Type) : Type :=
| Tuple2 (contours : list C) (hierarchy : H)
| Tuple3 (image : Mask) (contours : list C) (hierarchy : H).

Arguments Tuple2 {C H} contours hierarchy.
Arguments Tuple3 {C H} image contours hierarchy.

(** The image operations imported from OpenCV.  The program fixes their
    arguments; each field is the operation at those arguments:
    [bgr2hsv] is [cvtColor(_, COLOR_BGR2HSV)] on one pixel,
    [GaussianBlur7] is [GaussianBlur(_, (7,7), 0)],
    [threshold_inv_otsu] is [threshold(_, 0, 255, THRESH_BINARY_INV +
    THRESH_OTSU)] with its pair (level, image),
    [dilate_rect] is [dilate(_, kernel, iterations)],
    [findContours_external] is [findContours(_, RETR_EXTERNAL,
    CHAIN_APPROX_SIMPLE)]. *)
Class OpenCV : Type := {
  Contour : Type;
  Hierarchy : Type;
  bgr2hsv : BGRA -> HSV;
  GaussianBlur7 : Mask -> Mask;
  threshold_inv_otsu : Mask -> Z * Mask;
  dilate_rect : Mask -> Mask -> nat -> Mask;
  findContours_external : Mask -> FindContoursResult Contour Hierarchy;
  boundingRect : Contour -> Rect
}.

Module Cv.

(** [cv.cvtColor(img, cv.COLOR_BGR2HSV)] on a frame with pixels: the
    conversion of each pixel.  (On a frame without pixels the library
    raises; statements about what is returned assume a frame with
    pixels.) *)
Definition cvtColor_BGR2HSV {cv : OpenCV} (img : Frame) : HSVImage :=
  map (map bgr2hsv) img.

(** One pixel is in range when each channel lies between the bounds,
    both ends included. *)
Definition in_bounds (lo hi : HSV) (p : HSV) : bool :=
  let '(l1, l2, l3) := lo in
  let '(u1, u2, u3) := hi in
  let '(h, s, v) := p in
  ((l1 <=? h) && (h <=? u1) && (l2 <=? s) && (s <=? u2)
   && (l3 <=? v) && (v <=? u3))%Z.

(** [cv.inRange]: 255 where the pixel is in range, 0 elsewhere.  Bounds
    that are not 3-vectors are rejected. *)
Definition inRange (src : HSVImage) (lowerb upperb : Np.ndarray)
  : result Mask :=
  match lowerb, upperb with
  | Np.Arr1 [l1; l2; l3], Np.Arr1 [u1; u2; u3] =>
      Return (map (map (fun p =>
        if in_bounds (l1, l2, l3) (u1, u2, u3) p then 255%Z else 0%Z)) src)
  | _, _ => Raised (CollaboratorError "cv2")
  end.

(** [cv.bitwise_not] on 8-bit values. *)
Definition not8 (v : Z) : Z := Z.land (Z.lnot v) 255.

Definition bitwise_not (m : Mask) : Mask := map (map not8) m.

(** [cv.getStructuringElement(cv.MORPH_RECT, (w, h))]: [h] rows of [w]
    ones. *)
Definition getStructuringElement_rect (ksize : nat * nat) : Mask :=
  repeat (repeat 1%Z (fst ksize)) (snd ksize).

End Cv.

(** The slice [mask[y:y+h, x:x+w]]. *)
Definition crop (mask : Mask) (r : Rect) : Mask :=
  let '(x, y, w, h) := r in
  map (fun row => firstn w (skipn x row)) (firstn h (skipn y mask)).

(** Python's [sorted(l, key=key)]: ascending keys, equal keys in their
    original order. *)
Fixpoint insert_by {A} (key : A -> nat) (a : A) (l : list A) : list A :=
  match l with
  | [] => [a]
  | b :: r => if key a <=? key b then a :: l else b :: insert_by key a r
  end.

Definition sorted {A} (key : A -> nat) (l : list A) : list A :=
  fold_right (insert_by key) [] l.

(* ================================================================== *)
(** * Colour isolation *)

Definition getHSVBounds (mode : string) : result (Np.ndarray * Np.ndarray) :=
  if String.eqb mode "sextants" then
    lower <- Np.array [Np.PyList [102; 57; 180]%Z] ;;
    upper <- Np.array [Np.PyList [103; 61; 255]%Z] ;;
    Return (lower, upper)
  else if String.eqb mode "equipment" then
    lower <- Np.array [Np.PyList [120; 119; 165]%Z] ;;
    upper <- Np.array [Np.PyList [121; 123; 255]%Z] ;;
    Return (lower, upper)
  else
    lower <- Np.array [Np.PyList [0; 0; 0]%Z] ;;
    upper <- Np.array [Np.PyInt 255; Np.PyInt 255; Np.PyInt 255] ;;
    Return (lower, upper).

(** The body of [getIsolatedText] once the bounds are known. *)
Definition isolate {cv : OpenCV} (img : Frame) (lower upper : Np.ndarray)
  : result Mask :=
  let hsv := Cv.cvtColor_BGR2HSV img in
  mask <- Cv.inRange hsv lower upper ;;
  Return (Cv.bitwise_not mask).

(** [getIsolatedText]: the bounds are those of the default mode. *)
Definition getIsolatedText {cv : OpenCV} (img : Frame) : result Mask :=
  '(lower, upper) <- getHSVBounds "equipment" ;;
  isolate img lower upper.

(** In the returned mask a pixel in range is black (0) and any other pixel
    is white (255); the spec calls the first background and the second
    foreground. *)
Definition background : Z := 0%Z.
Definition foreground : Z := 255%Z.

(* ================================================================== *)
(** * Region extraction *)

Section Regions.
Context {cv : OpenCV}.

(** [cnts[0] if len(cnts) == 2 else cnts[1]]. *)
Definition select_contours (cnts : FindContoursResult Contour Hierarchy)
  : list Contour :=
  match cnts with
  | Tuple2 contours _ => contours
  | Tuple3 _ contours _ => contours
  end.

(** The size test of the filtering loop: [h > 20 and w > 200]. *)
Definition large_enough (r : Rect) : bool :=
  (20 <? rect_h r) && (200 <? rect_w r).

(** The filtering loop: one slice of the mask for each contour whose
    bounding rectangle passes the size test, in the order of [cnts]. *)
Fixpoint collectROIs (mask : Mask) (cnts : list Contour) : list Mask :=
  match cnts with
  | [] => []
  | c :: rest =>
      let '(x, y, w, h) := boundingRect c in
      if (20 <? h) && (200 <? w)
      then crop mask (x, y, w, h) :: collectROIs mask rest
      else collectROIs mask rest
  end.

(** The contours found in the mask, before sorting. *)
Definition findPhraseContours (mask : Mask) : list Contour :=
  let blurredImg := GaussianBlur7 mask in
  let thresh := snd (threshold_inv_otsu blurredImg) in
  let kernel := Cv.getStructuringElement_rect (12, 4) in
  let dilate := dilate_rect thresh kernel 2 in
  let cnts := findContours_external dilate in
  select_contours cnts.

(** [getPhraseROIs] from the mask on: contour detection, sorting by the
    x-coordinate of the bounding rectangle, filtering. *)
Definition extractROIs (mask : Mask) : list Mask :=
  let cnts := findPhraseContours mask in
  let cnts := sorted (fun c => rect_x (boundingRect c)) cnts in
  collectROIs mask cnts.

Definition getPhraseROIs (img : Frame) : result (list Mask) :=
  mask <- getIsolatedText img ;;
  Return (extractROIs mask).

(** The bounding rectangles behind the regions of [extractROIs], in the
    order of the regions. *)
Definition regionRects (mask : Mask) : list Rect :=
  filter large_enough
    (map boundingRect
       (sorted (fun c => rect_x (boundingRect c)) (findPhraseContours mask))).

End Regions.

(* ================================================================== *)
(** * The pipeline and its collaborators *)

(** Calls that leave the program: screen capture, text recognition, sound. *)
Inductive event : Type :=
| EvGrab (monitor : nat)
| EvRecognize (roi : Mask)
| EvPlay (clip : string) (block : bool).

(** The capture source and the recognition engine: [grab n] is
    [np.array(sct.grab(sct.monitors[n]))], [image_to_string] is
    [pytesseract.image_to_string].  Either can raise. *)
Class Collaborators : Type := {
  grab : nat -> result Frame;
  image_to_string : Mask -> result string
}.

(** A computation that logs its external calls and may raise. *)
Definition M (A : Type) : Type := list event -> result A * list event.

Definition ret {A} (a : A) : M A := fun log => (Return a, log).

Definition bind {A B} (m : M A) (k : A -> M B) : M B :=
  fun log =>
    match m log with
    | (Return a, log') => k a log'
    | (Raised e, log') => (Raised e, log')
    end.

Definition lift {A} (r : result A) : M A := fun log => (r, log).

Definition call {A} (ev : event) (r : result A) : M A :=
  fun log => (r, log ++ [ev]).

Notation "x <~ m ;; k" := (bind m (fun x => k))
  (at level 61, m at next level, right associativity).

Definition is_alert (ev : event) : bool :=
  match ev with
  | EvPlay _ _ => true
  | _ => false
  end.

Section Pipeline.
Context {cv : OpenCV} {co : Collaborators}.

Definition getScreenshot (monitor : nat) : M Frame :=
  call (EvGrab monitor) (grab monitor).

(** [playsound(clip, block=block)]: the call is logged.  A failure of the
    playback library is outside the model, so nothing is claimed about
    what follows the call. *)
Definition playsound (clip : string) (block : bool) : M unit :=
  call (EvPlay clip block) (Return tt).

(** The loop of [getPhraseStrings]: [phrases] is the list built so far. *)
Fixpoint recognizeAll (rois : list Mask) (phrases : list string)
  : M (list string) :=
  match rois with
  | [] => ret phrases
  | roi :: rest =>
      s <~ call (EvRecognize roi) (image_to_string roi) ;;
      recognizeAll rest (phrases ++ [s])
  end.

Definition getPhraseStrings (img : Frame) : M (list string) :=
  rois <~ lift (getPhraseROIs img) ;;
  recognizeAll rois [].

Definition runOCR (searchStrings : list string) : M unit :=
  img <~ getScreenshot 2 ;;
  phrases <~ getPhraseStrings img ;;
  if hasMatchingPhrase phrases searchStrings
  then playsound "quiet_alert.mp3" false
  else ret tt.

(** The pipeline up to the recognised phrases: capture, then
    [getPhraseStrings]. *)
Definition recognitionStage : M (list string) :=
  img <~ getScreenshot 2 ;;
  getPhraseStrings img.

(** The alerts raised by one run of the pipeline, started with an empty
    log. *)
Definition alerts (searchStrings : list string) : list event :=
  filter is_alert (snd (runOCR searchStrings [])).

End Pipeline.

(* ================================================================== *)
(** * Synthetic stand-ins *)

Module Synthetic.

(** A contour detector that reports the given rectangles whatever the
    image, with the other operations the identity. *)
Definition detector (blobs : list Rect) : OpenCV := {|
  Contour := Rect;
  Hierarchy := unit;
  bgr2hsv := fun p => let '(b, g, r, _) := p in (b, g, r);
  GaussianBlur7 := fun m => m;
  threshold_inv_otsu := fun m => (0%Z, m);
  dilate_rect := fun m _ _ => m;
  findContours_external := fun _ => Tuple2 blobs tt;
  boundingRect := fun r => r
|}.

(** A frame of [h] rows and [w] columns of one pixel. *)
Definition flat_frame (h w : nat) (p : BGRA) : Frame := repeat (repeat p w) h.

(** A recogniser that reads [text] in every region, and a capture source
    that always delivers [img]. *)
Definition reads (img : Frame) (text : string) : Collaborators := {|
  grab := fun _ => Return img;
  image_to_string := fun _ => Return text
|}.

Fixpoint row_eqb (r1 r2 : list Z) : bool :=
  match r1, r2 with
  | [], [] => true
  | a :: r1', b :: r2' => (a =? b)%Z && row_eqb r1' r2'
  | _, _ => false
  end.

Fixpoint mask_eqb (m1 m2 : Mask) : bool :=
  match m1, m2 with
  | [], [] => true
  | a :: m1', b :: m2' => row_eqb a b && mask_eqb m1' m2'
  | _, _ => false
  end.

(** A recogniser that fails on the region [bad] and reads [text] in every
    other region. *)
Definition fails_on (img : Frame) (bad : Mask) (text : string)
  : Collaborators := {|
  grab := fun _ => Return img;
  image_to_string := fun roi =>
    if mask_eqb roi bad then Raised (CollaboratorError "pytesseract")
    else Return text
|}.

(** A black frame of 30 rows and 520 columns with two line-sized blobs,
    reported right one first, and the regions cut for them. *)
Definition black_frame : Frame := flat_frame 30 520 (0, 0, 0, 255)%Z.
Definition two_blobs : OpenCV :=
  detector [(300, 0, 210, 25); (10, 0, 250, 25)].
Definition left_roi : Mask := repeat (repeat 255%Z 250) 25.
Definition right_roi : Mask := repeat (repeat 255%Z 210) 25.
Definition left_fails : Collaborators := fails_on black_frame left_roi "map".
Definition right_fails : Collaborators := fails_on black_frame right_roi "map".

End Synthetic.

(* ================================================================== *)
(** * Vocabulary of the statements *)

(** Bounds are valid when each lower channel is at most the upper one and
    all lie in 0..255. *)
Definition valid_bounds (lo hi : HSV) : Prop :=
  let '(l1, l2, l3) := lo in
  let '(u1, u2, u3) := hi in
  (0 <= l1 <= u1 /\ u1 <= 255 /\ 0 <= l2 <= u2 /\ u2 <= 255
   /\ 0 <= l3 <= u3 /\ u3 <= 255)%Z.

Definition bounds_array (b : HSV) : Np.ndarray :=
  let '(c1, c2, c3) := b in Np.Arr1 [c1; c2; c3].

(** Every pixel of the mask has the value [v]. *)
Definition all_pixels (v : Z) (m : Mask) : Prop :=
  Forall (Forall (fun x => x = v)) m.

(** Every pixel of the frame is inside, or outside, the bounds. *)
Definition frame_inside {cv : OpenCV} (lo hi : HSV) (inside : bool) (img : Frame)
  : Prop :=
  Forall (Forall (fun p => Cv.in_bounds lo hi (bgr2hsv p) = inside)) img.

(** The reading under which a frame whose pixels are all inside the bounds
    would give an all-foreground mask. *)
Definition inside_gives_foreground (cv : OpenCV) : Prop :=
  forall (img : Frame) (lo hi : HSV),
    valid_bounds lo hi ->
    frame_inside lo hi true img ->
    exists m, isolate img (bounds_array lo) (bounds_array hi) = Return m
              /\ all_pixels foreground m.

(** The colour conversion yields 8-bit channels. *)
Definition eight_bit (cv : OpenCV) : Prop :=
  forall p, Cv.in_bounds (0, 0, 0)%Z (255, 255, 255)%Z (bgr2hsv p) = true.

(* ================================================================== *)
(** * The driving loop *)

(** The keys the loop polls. *)
Inductive vkey : Type :=
| VK_BACK
| VK_LSHIFT
| VK_LBUTTON.

(** What one turn of the loop finds outside the program:
    [key_state k] is the value [win32api.GetAsyncKeyState(k)] returns in
    that turn, [screen] the capture source and the recogniser as they
    answer in that turn. *)
Record tick : Type := {
  key_state : vkey -> Z;
  screen : Collaborators
}.

(** What the loop does, in order: a key-state query, a [time.sleep], a
    call of [runOCR] with the external calls it made. *)
Inductive loop_event : Type :=
| Polled (key : vkey)
| Slept (seconds : Q)
| Ran (calls : list event).

(** How the loop stands after the given turns: left by [break], stopped
    by an exception of a run, or still looping. *)
Inductive loop_end : Type :=
| Exited
| Crashed (e : exn)
| Looping.

(** [state & 0x8000]. *)
Definition high_bit (state : Z) : Z := Z.land state 0x8000.

(** Truth value of a Python int in a condition: non-zero. *)
Definition truthy_int (z : Z) : bool := negb (z =? 0)%Z.

Section Loop.
Context {cv : OpenCV}.

(** The [while True] loop, one [tick] for each turn. *)
Fixpoint mainLoop (searchStrings : list string) (ticks : list tick)
  : loop_end * list loop_event :=
  match ticks with
  | [] => (Looping, [])
  | t :: rest =>
      let exitState := high_bit (key_state t VK_BACK) in
      if truthy_int exitState then (Exited, [Polled VK_BACK])
      else
        let LShiftState := high_bit (key_state t VK_LSHIFT) in
        let LMouseState := high_bit (key_state t VK_LBUTTON) in
        let polls := [Polled VK_BACK; Polled VK_LSHIFT; Polled VK_LBUTTON] in
        if truthy_int LShiftState && truthy_int LMouseState then
          match runOCR (co := screen t) searchStrings [] with
          | (Return _, calls) =>
              let '(e, trace) := mainLoop searchStrings rest in
              (e, polls ++ [Slept (25 # 100); Ran calls] ++ trace)
          | (Raised e, calls) =>
              (Crashed e, polls ++ [Slept (25 # 100); Ran calls])
          end
        else
          let '(e, trace) := mainLoop searchStrings rest in
          (e, polls ++ [Slept (2 # 100)] ++ trace)
  end.

(** The program: the watch-list is loaded once from the text of the
    configuration file, then the loop runs. *)
Definition main (text : string) (ticks : list tick)
  : loop_end * list loop_event :=
  let searchStrings := getSearchStrings text in
  mainLoop searchStrings ticks.

End Loop.

(* ================================================================== *)
(** * Further vocabulary *)

(** The string holds a line boundary. *)
Fixpoint has_linebreak (s : string) : bool :=
  match s with
  | EmptyString => false
  | String c r => PyStr.is_linebreak c || has_linebreak r
  end.

(** The lines, each followed by the terminator [term]. *)
Fixpoint terminated (term : string) (lines : list string) : string :=
  match lines with
  | [] => EmptyString
  | l :: rest => String.append l (String.append term (terminated term rest))
  end.

Definition CRLF : string := String PyStr.CR (String PyStr.LF EmptyString).
Definition NL : string := String PyStr.LF EmptyString.

Definition rect_y (r : Rect) : nat := let '(_, y, _, _) := r in y.

(** Every pixel of the mask is black or white. *)
Definition binary (m : Mask) : Prop :=
  Forall (Forall (fun v => v = background \/ v = foreground)) m.

(** The key is down in a state value: bit 15 is set. *)
Definition key_down (state : Z) : bool := Z.testbit state 15.

Definition exits (t : tick) : bool := key_down (key_state t VK_BACK).

Definition triggers (t : tick) : bool :=
  key_down (key_state t VK_LSHIFT) && key_down (key_state t VK_LBUTTON).

(** The turns before the first one that finds the exit key down. *)
Fixpoint live (ticks : list tick) : list tick :=
  match ticks with
  | [] => []
  | t :: rest => if exits t then [] else t :: live rest
  end.

(** The runs of a trace, each as the list of its external calls. *)
Fixpoint runs (trace : list loop_event) : list (list event) :=
  match trace with
  | [] => []
  | Ran calls :: rest => calls :: runs rest
  | _ :: rest => runs rest
  end.

(** The sleeps of a trace. *)
Fixpoint sleeps (trace : list loop_event) : list Q :=
  match trace with
  | [] => []
  | Slept s :: rest => s :: sleeps rest
  | _ :: rest => sleeps rest
  end.

(** The keys queried by a trace. *)
Fixpoint polls_of (trace : list loop_event) : list vkey :=
  match trace with
  | [] => []
  | Polled k :: rest => k :: polls_of rest
  | _ :: rest => polls_of rest
  end.

(** The external calls of the run of the pipeline a turn would make. *)
Definition run_log {cv : OpenCV} (ss : list string) (t : tick) : list event :=
  snd (runOCR (co := screen t) ss []).

(** A turn's run of the pipeline returns normally. *)
Definition run_returns {cv : OpenCV} (ss : list string) (t : tick) : Prop :=
  fst (runOCR (co := screen t) ss []) = Return tt.

(** What a turn that does not leave the loop does when its run, if any,
    returns: the three key queries, then the long sleep and a run when
    triggered, the short sleep otherwise. *)
Definition turn_trace {cv : OpenCV} (ss : list string) (t : tick)
  : list loop_event :=
  [Polled VK_BACK; Polled VK_LSHIFT; Polled VK_LBUTTON]
  ++ (if triggers t then [Slept (25 # 100); Ran (run_log ss t)]
      else [Slept (2 # 100)]).

(** The turns the loop goes through without error: every triggered turn
    before the exit has a run that returns. *)
Definition crash_free {cv : OpenCV} (ss : list string) (ticks : list tick)
  : Prop :=
  Forall (fun t => triggers t = true -> run_returns ss t) (live ticks).

(** The frame has pixels: it has a row, and no row is empty. *)
Definition has_pixels (img : Frame) : Prop :=
  img <> [] /\ Forall (fun row => row <> []) img.

(** No pixel of the mask is foreground. *)
Definition no_foreground (m : Mask) : Prop :=
  Forall (Forall (fun v => v <> foreground)) m.

(** A contour's bounding rectangle fails the size test. *)
Definition too_small {cv : OpenCV} (c : Contour) : Prop :=
  rect_h (boundingRect c) <= 20 \/ rect_w (boundingRect c) <= 200.

(** The first half of C4 read on the pixels of the mask: a mask without
    foreground pixels gives no region. *)
Definition empty_without_foreground (cv : OpenCV) : Prop :=
  forall mask, no_foreground mask -> extractROIs mask = [].

(** The mask of 30 rows and 520 columns whose pixels are all background. *)
Definition background_mask : Mask := repeat (repeat background 520) 30.

(** What contour detection makes of that mask: the inverted threshold
    turns it white throughout, and a contour is found (the border of the
    frame) whose bounding rectangle passes the size test. *)
Definition detects_frame_blob (cv : OpenCV) : Prop :=
  Exists (fun c => large_enough (boundingRect c) = true)
         (findPhraseContours background_mask).

(** A detector that reports the border of that mask as its one contour. *)
Definition whole_frame : OpenCV := Synthetic.detector [(0, 0, 520, 30)].

(** [a] occurs in [s] as a run of consecutive characters. *)
Definition occurs_in (a s : string) : Prop :=
  exists pre post, s = String.append pre (String.append a post).

(** A capture source without a second monitor: [sct.monitors[2]] raises
    [IndexError]. *)
Definition no_second_monitor : Collaborators := {|
  grab := fun _ => Raised IndexError;
  image_to_string := fun _ => Return EmptyString
|}.

Module Keys.

(** Key states with only [BACK], or only the trigger keys, or nothing
    down; [-32768] is the state of a key that is down. *)
Definition none : vkey -> Z := fun _ => 0%Z.
Definition back : vkey -> Z :=
  fun k => match k with VK_BACK => (-32768)%Z | _ => 0%Z end.
Definition trigger : vkey -> Z :=
  fun k => match k with VK_BACK => 0%Z | _ => (-32768)%Z end.
Definition all_down : vkey -> Z := fun _ => (-32768)%Z.

(** Turns in front of a screen that reads [Map] in two regions: with no
    key down, with the trigger keys down, with the exit key down, and with
    the trigger keys down while recognition fails. *)
Definition idle : tick :=
  {| key_state := none;
     screen := Synthetic.reads Synthetic.black_frame "Map" |}.
Definition triggered : tick :=
  {| key_state := trigger;
     screen := Synthetic.reads Synthetic.black_frame "Map" |}.
Definition leaving : tick :=
  {| key_state := all_down;
     screen := Synthetic.reads Synthetic.black_frame "Map" |}.
Definition failing : tick :=
  {| key_state := trigger; screen := Synthetic.left_fails |}.

End Keys.

Arguments Lv.ratio : simpl never.
Arguments Lv.normalized_similarity : simpl never.
Arguments truthy : simpl never.
Arguments Cv.in_bounds : simpl never.

(* ================================================================== *)
(** * Properties of the phrase matcher *)

Lemma truthy_ratio (a b : string) :
  truthy (Lv.ratio a b (Some score_cutoff)) = true
  <-> (score_cutoff <= Lv.normalized_similarity a b)%Q.
Proof.
  unfold Lv.ratio, truthy.
  destruct (Qle_bool score_cutoff (Lv.normalized_similarity a b)) eqn:E.
  - apply Qle_bool_iff in E. split; [intros _; exact E|intros _].
    apply negb_true_iff.
    destruct (Qeq_bool (Lv.normalized_similarity a b) 0) eqn:Z0; [|reflexivity].
    apply Qeq_bool_iff in Z0. rewrite Z0 in E.
    exfalso. revert E. unfold score_cutoff, Qle. simpl. lia.
  - split.
    + intros H. vm_compute in H. discriminate.
    + intros H. apply Qle_bool_iff in H. congruence.
Qed.

Lemma matchPhrase_true (p : string) (ss : list string) :
  fst (matchPhrase p ss) = true ->
  exists before t after,
    ss = before ++ t :: after
    /\ Forall (fun t' => ~ meets_cutoff p t') before
    /\ meets_cutoff p t
    /\ snd (matchPhrase p ss)
       = map (fun t' => (PyStr.lower p, t')) (before ++ [t]).
Proof.
  induction ss as [|s rest IH]; simpl; [discriminate|].
  destruct (truthy (Lv.ratio (PyStr.lower p) s (Some score_cutoff))) eqn:E.
  - intros _. exists [], s, rest. simpl.
    split; [reflexivity|]. split; [apply Forall_nil|].
    split; [|reflexivity]. apply truthy_ratio. exact E.
  - destruct (matchPhrase p rest) as [b calls] eqn:R. simpl in *.
    intros Hb. destruct (IH Hb) as (before & t & after & -> & Hbef & Ht & Hc).
    exists (s :: before), t, after. simpl.
    split; [reflexivity|]. split; [|split; [exact Ht|now rewrite Hc]].
    apply Forall_cons; [|exact Hbef].
    intros Hm. apply truthy_ratio in Hm. congruence.
Qed.

Lemma matchPhrase_false (p : string) (ss : list string) :
  fst (matchPhrase p ss) = false ->
  Forall (fun t => ~ meets_cutoff p t) ss
  /\ snd (matchPhrase p ss) = map (fun t => (PyStr.lower p, t)) ss.
Proof.
  induction ss as [|s rest IH]; simpl;
    [intros _; split; [apply Forall_nil|reflexivity]|].
  destruct (truthy (Lv.ratio (PyStr.lower p) s (Some score_cutoff))) eqn:E;
    [discriminate|].
  destruct (matchPhrase p rest) as [b calls] eqn:R. simpl in *.
  intros Hb. destruct (IH Hb) as [HF Hc]. split.
  - apply Forall_cons; [|exact HF].
    intros Hm. apply truthy_ratio in Hm. congruence.
  - now rewrite Hc.
Qed.

Lemma map_comparison_of_pairs (p : string) (l : list string) :
  map comparison_of (map (fun t => (p, t)) l)
  = map (fun t => (PyStr.lower p, t)) l.
Proof. rewrite map_map. reflexivity. Qed.

(** The run of the two loops: either it stops at the first pair of the
    cross product that meets the cutoff, or it goes through the whole
    cross product and no pair meets it. *)
Lemma hasMatchingPhrase_calls_spec (ps ss : list string) :
  (fst (hasMatchingPhrase_calls ps ss) = true
   /\ exists before p t after,
        list_prod ps ss = before ++ (p, t) :: after
        /\ Forall (fun c => ~ meets_cutoff (fst c) (snd c)) before
        /\ meets_cutoff p t
        /\ snd (hasMatchingPhrase_calls ps ss)
           = map comparison_of (before ++ [(p, t)]))
  \/
  (fst (hasMatchingPhrase_calls ps ss) = false
   /\ Forall (fun c => ~ meets_cutoff (fst c) (snd c)) (list_prod ps ss)
   /\ snd (hasMatchingPhrase_calls ps ss)
      = map comparison_of (list_prod ps ss)).
Proof.
  induction ps as [|p rest IH]; simpl.
  - right. split; [reflexivity|]. split; [apply Forall_nil|reflexivity].
  - destruct (matchPhrase p ss) as [b calls] eqn:R.
    destruct b.
    + left. split; [reflexivity|].
      destruct (@matchPhrase_true p ss) as (before & t & after & E & HF & Ht & Hc).
      { now rewrite R. }
      rewrite R in Hc. simpl in Hc.
      exists (map (fun t' => (p, t')) before), p, t,
             (map (fun t' => (p, t')) after ++ list_prod rest ss).
      repeat split.
      * rewrite E, map_app. simpl. now rewrite <- app_assoc.
      * apply Forall_forall. intros c Hin. apply in_map_iff in Hin.
        destruct Hin as (t' & <- & Hin). simpl.
        rewrite Forall_forall in HF. now apply HF.
      * exact Ht.
      * simpl. rewrite Hc, !map_app, map_comparison_of_pairs. reflexivity.
    + destruct (@matchPhrase_false p ss) as [HF Hc]; [now rewrite R|].
      rewrite R in Hc. simpl in Hc.
      assert (HF' : Forall (fun c => ~ meets_cutoff (fst c) (snd c))
                      (map (fun t => (p, t)) ss)).
      { apply Forall_forall. intros c Hin. apply in_map_iff in Hin.
        destruct Hin as (t' & <- & Hin). simpl.
        rewrite Forall_forall in HF. now apply HF. }
      destruct (hasMatchingPhrase_calls rest ss) as [b' calls'] eqn:R'.
      simpl in *.
      destruct IH as [(Hb & before & q & t & after & E & HB & Hq & Hc')
                     |(Hb & HA & Hc')]; subst b'.
      * left. split; [reflexivity|].
        exists (map (fun t' => (p, t')) ss ++ before), q, t, after.
        repeat split.
        -- now rewrite E, <- app_assoc.
        -- apply Forall_app. split; assumption.
        -- exact Hq.
        -- rewrite Hc, Hc', <- app_assoc, !map_app, map_comparison_of_pairs.
           reflexivity.
      * right. repeat split.
        -- apply Forall_app. split; assumption.
        -- rewrite Hc, Hc', map_app, map_comparison_of_pairs. reflexivity.
Qed.

Lemma hasMatchingPhrase_true_iff (ps ss : list string) :
  hasMatchingPhrase ps ss = true
  <-> exists p t, In p ps /\ In t ss /\ meets_cutoff p t.
Proof.
  unfold hasMatchingPhrase.
  destruct (hasMatchingPhrase_calls_spec ps ss)
    as [(Hb & before & p & t & after & E & _ & Hm & _)|(Hb & HA & _)].
  - split; [intros _|intros _; exact Hb].
    exists p, t.
    assert (Hin : In (p, t) (list_prod ps ss))
      by (rewrite E; apply in_or_app; right; left; reflexivity).
    apply in_prod_iff in Hin. tauto.
  - split; [congruence|].
    intros (p & t & Hp & Ht & Hm). exfalso.
    rewrite Forall_forall in HA.
    apply (HA (p, t)); [now apply in_prod|exact Hm].
Qed.

(** C1: [hasMatchingPhrase] is true exactly when some pair of the cross
    product of candidates and targets has a ratio, between the lower-cased
    candidate and the target, of at least 0.90.  When it is true the loops
    stopped at the first such pair in candidate-major, target-minor order:
    the comparisons made are those of the pairs up to and including it.
    When no pair meets the cutoff it is false after going through the whole
    cross product; it is false whenever either list is empty. *)
Theorem hasMatchingPhrase_first_sufficient_pair (ps ss : list string) :
  (hasMatchingPhrase ps ss = true
   <-> exists p t, In p ps /\ In t ss /\ meets_cutoff p t)
  /\ ((hasMatchingPhrase ps ss = true
       /\ exists before p t after,
            list_prod ps ss = before ++ (p, t) :: after
            /\ Forall (fun c => ~ meets_cutoff (fst c) (snd c)) before
            /\ meets_cutoff p t
            /\ snd (hasMatchingPhrase_calls ps ss)
               = map comparison_of (before ++ [(p, t)]))
      \/
      (hasMatchingPhrase ps ss = false
       /\ Forall (fun c => ~ meets_cutoff (fst c) (snd c)) (list_prod ps ss)
       /\ snd (hasMatchingPhrase_calls ps ss)
          = map comparison_of (list_prod ps ss)))
  /\ hasMatchingPhrase [] ss = false
  /\ hasMatchingPhrase ps [] = false.
Proof.
  split; [apply hasMatchingPhrase_true_iff|].
  split; [exact (hasMatchingPhrase_calls_spec ps ss)|].
  split; [reflexivity|].
  destruct (hasMatchingPhrase ps []) eqn:E; [|reflexivity].
  apply hasMatchingPhrase_true_iff in E.
  destruct E as (p & t & _ & [] & _).
Qed.

Example hello_world_case :
  hasMatchingPhrase ["HELLO WORLD"] ["hello world"] = true.
Proof. vm_compute. reflexivity. Qed.

Example hellx_world :
  hasMatchingPhrase ["hellx world"] ["hello world"] = true
  /\ (Lv.normalized_similarity "hellx world" "hello world" == 20 # 22)%Q.
Proof. vm_compute. split; reflexivity. Qed.

Example short_circuit_calls :
  hasMatchingPhrase_calls ["Map"; "ABC"; "xyz"] ["abd"; "abc"; "xyz"]
  = (true, [("map", "abd"); ("map", "abc"); ("map", "xyz");
            ("abc", "abd"); ("abc", "abc")]).
Proof. vm_compute. reflexivity. Qed.

(** ** Case folding *)

Lemma lower_char_idempotent (c : ascii) :
  PyStr.lower_char (PyStr.lower_char c) = PyStr.lower_char c.
Proof.
  destruct c as [b0 b1 b2 b3 b4 b5 b6 b7].
  destruct b0, b1, b2, b3, b4, b5, b6, b7; vm_compute; reflexivity.
Qed.

Lemma lower_idempotent (s : string) :
  PyStr.lower (PyStr.lower s) = PyStr.lower s.
Proof.
  induction s as [|c r IH]; simpl; [reflexivity|].
  now rewrite lower_char_idempotent, IH.
Qed.

Lemma map_fixed {A} (f : A -> A) (l : list A) :
  Forall (fun a => f a = a) l -> map f l = l.
Proof.
  induction 1 as [|a r Ha _ IH]; simpl; [reflexivity|].
  now rewrite Ha, IH.
Qed.

Lemma hasMatchingPhrase_lower_candidates (ps ss : list string) :
  hasMatchingPhrase (map PyStr.lower ps) ss = hasMatchingPhrase ps ss.
Proof.
  apply Bool.eq_iff_eq_true. rewrite !hasMatchingPhrase_true_iff.
  split.
  - intros (p & t & Hp & Ht & Hm). apply in_map_iff in Hp.
    destruct Hp as (q & <- & Hq). exists q, t. repeat split; trivial.
    unfold meets_cutoff in *. now rewrite lower_idempotent in Hm.
  - intros (p & t & Hp & Ht & Hm). exists (PyStr.lower p), t.
    split; [now apply in_map|]. split; [exact Ht|].
    unfold meets_cutoff in *. now rewrite lower_idempotent.
Qed.

Lemma calls_use_targets_as_loaded (ps ss : list string) (c : comparison) :
  In c (snd (hasMatchingPhrase_calls ps ss)) ->
  In (snd c) ss /\ exists p, In p ps /\ fst c = PyStr.lower p.
Proof.
  intros Hc.
  assert (Hin : exists pr, In pr (list_prod ps ss) /\ c = comparison_of pr).
  { destruct (hasMatchingPhrase_calls_spec ps ss)
      as [(_ & before & p & t & after & E & _ & _ & Hcalls)|(_ & _ & Hcalls)];
      rewrite Hcalls in Hc; apply in_map_iff in Hc;
      destruct Hc as (pr & <- & Hpr); exists pr; split; trivial.
    rewrite E. apply in_app_or in Hpr. apply in_or_app.
    destruct Hpr as [Hpr|[<-|[]]]; [now left|right; now left]. }
  destruct Hin as ([p t] & Hpr & ->). apply in_prod_iff in Hpr.
  simpl. split; [tauto|]. exists p. tauto.
Qed.

(** C8 as stated fails: an upper-case watch-list entry is never folded, so
    lower-casing the watch-list changes the decision. *)
Lemma uppercase_target_counterexample :
  hasMatchingPhrase ["hello"] ["HELLO"] = false
  /\ hasMatchingPhrase ["hello"] (map PyStr.lower ["HELLO"]) = true.
Proof. vm_compute. split; reflexivity. Qed.

(* ================================================================== *)
(** * Properties of the colour bounds and of colour isolation *)

Lemma getHSVBounds_presets :
  getHSVBounds "sextants"
  = Return (Np.Arr1 [102; 57; 180]%Z, Np.Arr1 [103; 61; 255]%Z)
  /\ getHSVBounds "equipment"
     = Return (Np.Arr1 [120; 119; 165]%Z, Np.Arr1 [121; 123; 255]%Z).
Proof. split; reflexivity. Qed.

Lemma getHSVBounds_other_mode (mode : string) :
  mode <> "sextants" -> mode <> "equipment" ->
  getHSVBounds mode = Raised TypeError.
Proof.
  intros H1 H2. unfold getHSVBounds.
  apply String.eqb_neq in H1. apply String.eqb_neq in H2.
  rewrite H1, H2. reflexivity.
Qed.

(** C7, at a mode that is no preset: the fallback branch builds its upper
    bound with [np.array(255,255,255)], which raises [TypeError]; the
    widest range is not returned. *)
Theorem getHSVBounds_unrecognized_mode_raises :
  getHSVBounds "maps" = Raised TypeError
  /\ getHSVBounds "maps"
     <> Return (Np.Arr1 [0; 0; 0]%Z, Np.Arr1 [255; 255; 255]%Z).
Proof. split; [reflexivity|discriminate]. Qed.

Lemma not8_255 : Cv.not8 255 = 0%Z.
Proof. reflexivity. Qed.

Lemma not8_0 : Cv.not8 0 = 255%Z.
Proof. reflexivity. Qed.

Lemma map_map_ext_Forall {A B} (f g : A -> B) (l : list (list A)) :
  Forall (Forall (fun a => f a = g a)) l -> map (map f) l = map (map g) l.
Proof.
  induction 1 as [|row rest Hrow _ IH]; simpl; [reflexivity|].
  f_equal; [|exact IH].
  induction Hrow as [|a r Ha _ IHr]; simpl; [reflexivity|].
  now rewrite Ha, IHr.
Qed.

Lemma all_pixels_const {A} (v : Z) (l : list (list A)) :
  all_pixels v (map (map (fun _ => v)) l).
Proof.
  unfold all_pixels. apply Forall_forall. intros row Hrow.
  apply in_map_iff in Hrow. destruct Hrow as (r & <- & _).
  apply Forall_forall. intros x Hx. apply in_map_iff in Hx.
  now destruct Hx as (_ & <- & _).
Qed.

Section Isolation.
Context {cv : OpenCV}.

Lemma isolate_pixelwise (img : Frame) (lo hi : HSV) :
  isolate img (bounds_array lo) (bounds_array hi)
  = Return (map (map (fun p =>
      if Cv.in_bounds lo hi (bgr2hsv p) then background else foreground)) img).
Proof.
  destruct lo as [[l1 l2] l3], hi as [[u1 u2] u3].
  unfold isolate, Cv.inRange, Cv.cvtColor_BGR2HSV, Cv.bitwise_not. simpl.
  f_equal. rewrite !map_map. apply map_ext. intros row.
  rewrite !map_map. apply map_ext. intros p.
  destruct (Cv.in_bounds (l1, l2, l3) (u1, u2, u3) (bgr2hsv p)); reflexivity.
Qed.

(** C2, as the code has it: for every frame and every bounds pair the
    returned mask is the complement of the in-range mask: a pixel whose HSV
    value is inside the bounds, ends included, is background (0) and every
    other pixel is foreground (255).  So a frame whose pixels are all
    outside the bounds gives an all-foreground mask, and a frame whose
    pixels are all inside gives an all-background mask.
    [getIsolatedText] is this at the bounds of the default mode. *)
Theorem isolate_complement_of_in_range (img : Frame) (lo hi : HSV) :
  valid_bounds lo hi ->
  (exists in_range,
      Cv.inRange (Cv.cvtColor_BGR2HSV img) (bounds_array lo) (bounds_array hi)
      = Return in_range
      /\ isolate img (bounds_array lo) (bounds_array hi)
         = Return (Cv.bitwise_not in_range))
  /\ isolate img (bounds_array lo) (bounds_array hi)
     = Return (map (map (fun p =>
         if Cv.in_bounds lo hi (bgr2hsv p) then background else foreground))
         img)
  /\ (frame_inside lo hi false img ->
      exists m, isolate img (bounds_array lo) (bounds_array hi) = Return m
                /\ all_pixels foreground m)
  /\ (frame_inside lo hi true img ->
      exists m, isolate img (bounds_array lo) (bounds_array hi) = Return m
                /\ all_pixels background m)
  /\ getIsolatedText img
     = isolate img (bounds_array (120, 119, 165)%Z)
                   (bounds_array (121, 123, 255)%Z).
Proof.
  intros _. split; [|split; [apply isolate_pixelwise|split; [|split]]].
  - destruct lo as [[l1 l2] l3], hi as [[u1 u2] u3].
    eexists. split; reflexivity.
  - intros Hout. eexists. split; [apply isolate_pixelwise|].
    erewrite map_map_ext_Forall; [apply all_pixels_const|].
    unfold frame_inside in Hout.
    eapply Forall_impl; [|exact Hout]. intros row Hrow.
    eapply Forall_impl; [|exact Hrow]. simpl. intros p ->. reflexivity.
  - intros Hin. eexists. split; [apply isolate_pixelwise|].
    erewrite map_map_ext_Forall; [apply all_pixels_const|].
    unfold frame_inside in Hin.
    eapply Forall_impl; [|exact Hin]. intros row Hrow.
    eapply Forall_impl; [|exact Hrow]. simpl. intros p ->. reflexivity.
  - reflexivity.
Qed.

End Isolation.

(** C2 as stated fails whatever the 8-bit colour conversion: the frame of
    the single pixel (0,0,0,255) lies inside the bounds (0,0,0) to
    (255,255,255), and its mask is the single background pixel 0. *)
Lemma inside_frame_counterexample :
  ~ exists cv : OpenCV, eight_bit cv /\ inside_gives_foreground cv.
Proof.
  intros (cv & H8 & Hclaim).
  destruct (Hclaim [[(0, 0, 0, 255)%Z]] (0, 0, 0)%Z (255, 255, 255)%Z)
    as (m & Hm & Hall).
  - simpl. lia.
  - repeat constructor. apply H8.
  - rewrite isolate_pixelwise in Hm. simpl in Hm. rewrite H8 in Hm.
    injection Hm as <-.
    inversion Hall as [|row rest Hrow _]; subst.
    inversion Hrow as [|x r Hx _]; subst. discriminate.
Qed.

Lemma isolate_complement_of_in_range_witness :
  valid_bounds (120, 119, 165)%Z (121, 123, 255)%Z
  /\ getIsolatedText (cv := Synthetic.detector [])
       [[(120, 120, 200, 255); (0, 0, 0, 255)]%Z]
     = Return [[0; 255]%Z].
Proof.
  assert (V : valid_bounds (120, 119, 165)%Z (121, 123, 255)%Z)
    by (simpl; lia).
  split; [exact V|].
  destruct (isolate_complement_of_in_range (cv := Synthetic.detector [])
              [[(120, 120, 200, 255); (0, 0, 0, 255)]%Z]
              (120, 119, 165)%Z (121, 123, 255)%Z V)
    as (_ & Hpix & _ & _ & Hget).
  rewrite Hget, Hpix. reflexivity.
Defined.

(* ================================================================== *)
(** * Properties of [sorted] *)

Section Sorted.
Context {A : Type} (key : A -> nat).

Lemma insert_by_perm (a : A) (l : list A) :
  Permutation (insert_by key a l) (a :: l).
Proof.
  induction l as [|b r IH]; simpl; [reflexivity|].
  destruct (key a <=? key b); [reflexivity|].
  rewrite IH. apply perm_swap.
Qed.

Lemma sorted_perm (l : list A) : Permutation (sorted key l) l.
Proof.
  induction l as [|a r IH]; simpl; [reflexivity|].
  rewrite insert_by_perm. now constructor.
Qed.

Lemma insert_by_ascending (a : A) (l : list A) :
  StronglySorted (fun u v => key u <= key v) l ->
  StronglySorted (fun u v => key u <= key v) (insert_by key a l).
Proof.
  induction 1 as [|b r Hr IH Hb]; simpl.
  - constructor; constructor.
  - destruct (key a <=? key b) eqn:E.
    + apply Nat.leb_le in E. constructor; [now constructor|].
      constructor; [exact E|].
      eapply Forall_impl; [|exact Hb]. simpl. intros; lia.
    + apply Nat.leb_gt in E. constructor; [exact IH|].
      eapply Permutation_Forall; [symmetry; apply insert_by_perm|].
      constructor; [lia|exact Hb].
Qed.

Lemma sorted_ascending (l : list A) :
  StronglySorted (fun u v => key u <= key v) (sorted key l).
Proof.
  induction l as [|a r IH]; simpl; [constructor|].
  now apply insert_by_ascending.
Qed.

(** Elements of equal key keep their original order. *)
Lemma insert_by_stable (k : nat) (a : A) (l : list A) :
  StronglySorted (fun u v => key u <= key v) l ->
  filter (fun u => key u =? k) (insert_by key a l)
  = filter (fun u => key u =? k) (a :: l).
Proof.
  induction 1 as [|b r Hr IH Hb]; [reflexivity|].
  cbn [insert_by]. destruct (key a <=? key b) eqn:E; [reflexivity|].
  apply Nat.leb_gt in E.
  cbn [filter] in *. rewrite IH.
  destruct (key a =? k) eqn:Ea, (key b =? k) eqn:Eb; try reflexivity.
  apply Nat.eqb_eq in Ea. apply Nat.eqb_eq in Eb. lia.
Qed.

Lemma sorted_stable (k : nat) (l : list A) :
  filter (fun u => key u =? k) (sorted key l)
  = filter (fun u => key u =? k) l.
Proof.
  induction l as [|a r IH]; [reflexivity|].
  cbn [sorted fold_right]. fold (sorted key r).
  rewrite insert_by_stable by apply sorted_ascending.
  cbn [filter]. now rewrite IH.
Qed.

End Sorted.

Lemma insert_by_map {A B} (f : A -> B) (key : B -> nat) (a : A) (l : list A) :
  map f (insert_by (fun c => key (f c)) a l) = insert_by key (f a) (map f l).
Proof.
  induction l as [|b r IH]; simpl; [reflexivity|].
  destruct (key (f a) <=? key (f b)); simpl; [reflexivity|now rewrite IH].
Qed.

Lemma sorted_map {A B} (f : A -> B) (key : B -> nat) (l : list A) :
  map f (sorted (fun c => key (f c)) l) = sorted key (map f l).
Proof.
  induction l as [|a r IH]; simpl; [reflexivity|].
  now rewrite insert_by_map, IH.
Qed.

Lemma filter_ascending {A} (key : A -> nat) (keep : A -> bool) (l : list A) :
  StronglySorted (fun u v => key u <= key v) l ->
  StronglySorted (fun u v => key u <= key v) (filter keep l).
Proof.
  induction 1 as [|a r Hr IH Ha]; simpl; [constructor|].
  destruct (keep a); [|exact IH].
  constructor; [exact IH|].
  apply Forall_forall. intros b Hb. apply filter_In in Hb.
  rewrite Forall_forall in Ha. now apply Ha.
Qed.

Lemma filter_comm {A} (f g : A -> bool) (l : list A) :
  filter f (filter g l) = filter g (filter f l).
Proof.
  induction l as [|a r IH]; simpl; [reflexivity|].
  destruct (f a) eqn:Ef, (g a) eqn:Eg; simpl; rewrite ?Ef, ?Eg, IH; reflexivity.
Qed.

Lemma filter_perm {A} (f : A -> bool) (l l' : list A) :
  Permutation l l' -> Permutation (filter f l) (filter f l').
Proof.
  induction 1 as [|a l l' _ IH|a b l|l l' l'' _ IH1 _ IH2]; simpl.
  - reflexivity.
  - destruct (f a); [now constructor|exact IH].
  - destruct (f a), (f b); try reflexivity. apply perm_swap.
  - now rewrite IH1.
Qed.

Lemma filter_none {A} (f : A -> bool) (l : list A) :
  (forall a, In a l -> f a = false) -> filter f l = [].
Proof.
  induction l as [|a r IH]; simpl; [reflexivity|]. intros H.
  rewrite (H a) by now left. apply IH. intros b Hb. apply H. now right.
Qed.

Example sorted_is_stable :
  sorted fst [(3, "a"); (1, "b"); (3, "c"); (1, "d"); (2, "e")]
  = [(1, "b"); (1, "d"); (2, "e"); (3, "a"); (3, "c")].
Proof. reflexivity. Qed.

(* ================================================================== *)
(** * Properties of region extraction *)

Section RegionProperties.
Context {cv : OpenCV}.

Lemma large_enough_iff (r : Rect) :
  large_enough r = true <-> 20 < rect_h r /\ 200 < rect_w r.
Proof.
  unfold large_enough. rewrite andb_true_iff, !Nat.ltb_lt. reflexivity.
Qed.

Lemma collectROIs_filter (mask : Mask) (cnts : list Contour) :
  collectROIs mask cnts
  = map (crop mask) (filter large_enough (map boundingRect cnts)).
Proof.
  induction cnts as [|c rest IH]; simpl; [reflexivity|].
  unfold large_enough at 1, rect_h, rect_w.
  destruct (boundingRect c) as [[[x y] w] h].
  destruct ((20 <? h) && (200 <? w)); simpl; now rewrite IH.
Qed.

Lemma extractROIs_regionRects (mask : Mask) :
  extractROIs mask = map (crop mask) (regionRects mask).
Proof. unfold extractROIs, regionRects. apply collectROIs_filter. Qed.

Lemma regionRects_sorted_rects (mask : Mask) :
  regionRects mask
  = filter large_enough
      (sorted rect_x (map boundingRect (findPhraseContours mask))).
Proof. unfold regionRects. now rewrite sorted_map. Qed.

Lemma getIsolatedText_returns (img : Frame) :
  exists mask, getIsolatedText img = Return mask.
Proof. eexists. reflexivity. Qed.

Lemma extractROIs_empty_iff (mask : Mask) :
  extractROIs mask = [] <-> Forall too_small (findPhraseContours mask).
Proof.
  rewrite extractROIs_regionRects, regionRects_sorted_rects. split.
  - intros E. apply Forall_forall. intros c Hc. unfold too_small.
    destruct (large_enough (boundingRect c)) eqn:L.
    + exfalso.
      assert (Hin : In (boundingRect c)
                      (filter large_enough
                         (sorted rect_x
                            (map boundingRect (findPhraseContours mask))))).
      { apply filter_In. split; [|exact L].
        apply (Permutation_in _ (Permutation_sym (sorted_perm rect_x _))).
        now apply in_map. }
      destruct (filter large_enough _); [exact Hin|discriminate E].
    + unfold large_enough in L. apply andb_false_iff in L.
      rewrite !Nat.ltb_ge in L. tauto.
  - intros Hall. rewrite filter_none; [reflexivity|]. intros r Hr.
    apply (Permutation_in _ (sorted_perm rect_x _)) in Hr.
    apply in_map_iff in Hr. destruct Hr as (c & <- & Hc).
    rewrite Forall_forall in Hall. specialize (Hall c Hc).
    unfold too_small in Hall.
    destruct (large_enough (boundingRect c)) eqn:E; [|reflexivity].
    apply large_enough_iff in E. lia.
Qed.

(** C4, as the code has it: for a frame with pixels [getPhraseROIs]
    returns without error, and what it returns is the empty sequence
    exactly when contour detection reports no contour whose bounding
    rectangle is higher than 20 and wider than 200: when every contour
    found has height at most 20 or width at most 200, and in particular
    when none is found.  The test is on the contours detected in the
    thresholded, dilated mask, not on the pixels of the mask. *)
Theorem getPhraseROIs_empty_iff_no_large_contour (img : Frame) :
  has_pixels img ->
  exists mask,
    getIsolatedText img = Return mask
    /\ getPhraseROIs img = Return (extractROIs mask)
    /\ (extractROIs mask = []
        <-> Forall too_small (findPhraseContours mask))
    /\ (getPhraseROIs img = Return []
        <-> Forall too_small (findPhraseContours mask)).
Proof.
  intros _. destruct (getIsolatedText_returns img) as [mask Hmask].
  exists mask.
  assert (Hget : getPhraseROIs img = Return (extractROIs mask))
    by (unfold getPhraseROIs; now rewrite Hmask).
  split; [exact Hmask|]. split; [exact Hget|].
  split; [apply extractROIs_empty_iff|].
  rewrite Hget, <- extractROIs_empty_iff. split.
  - intros E. now injection E.
  - intros ->. reflexivity.
Qed.

(** C5: the regions are the slices of the mask at exactly those contour
    bounding rectangles whose height is strictly above 20 and whose width
    is strictly above 200, each as many times as the detection reports it;
    a rectangle failing either inequality gives no region. *)
Theorem extractROIs_retains_large_rectangles (mask : Mask) :
  extractROIs mask = map (crop mask) (regionRects mask)
  /\ Permutation (regionRects mask)
       (filter large_enough (map boundingRect (findPhraseContours mask)))
  /\ (forall r, In r (regionRects mask)
        <-> In r (map boundingRect (findPhraseContours mask))
            /\ 20 < rect_h r /\ 200 < rect_w r)
  /\ List.length (extractROIs mask)
     = List.length (filter large_enough
                 (map boundingRect (findPhraseContours mask))).
Proof.
  assert (HP : Permutation (regionRects mask)
       (filter large_enough (map boundingRect (findPhraseContours mask)))).
  { rewrite regionRects_sorted_rects. apply filter_perm, sorted_perm. }
  split; [apply extractROIs_regionRects|]. split; [exact HP|]. split.
  - intros r. rewrite <- large_enough_iff, <- filter_In. split.
    + apply Permutation_in. exact HP.
    + apply Permutation_in. symmetry. exact HP.
  - rewrite extractROIs_regionRects, length_map.
    apply Permutation_length. exact HP.
Qed.

(** C6: the regions come in ascending order of the x-coordinate of their
    bounding rectangles, and rectangles of equal x keep the order in which
    contour detection reported them (the sort is stable). *)
Theorem extractROIs_left_to_right (mask : Mask) :
  extractROIs mask = map (crop mask) (regionRects mask)
  /\ StronglySorted (fun a b => rect_x a <= rect_x b) (regionRects mask)
  /\ (forall x,
        filter (fun r => rect_x r =? x) (regionRects mask)
        = filter (fun r => rect_x r =? x)
            (filter large_enough
               (map boundingRect (findPhraseContours mask)))).
Proof.
  split; [apply extractROIs_regionRects|].
  rewrite regionRects_sorted_rects. split.
  - apply filter_ascending, sorted_ascending.
  - intros x. rewrite filter_comm, sorted_stable. apply filter_comm.
Qed.

End RegionProperties.

Lemma getPhraseROIs_empty_iff_no_large_contour_witness :
  has_pixels (Synthetic.flat_frame 2 3 (0, 0, 0, 255)%Z)
  /\ getPhraseROIs (cv := Synthetic.detector [(10, 0, 50, 10); (0, 0, 300, 20)])
       (Synthetic.flat_frame 2 3 (0, 0, 0, 255)%Z) = Return []
  /\ getPhraseROIs (cv := Synthetic.detector [])
       (Synthetic.flat_frame 2 3 (0, 0, 0, 255)%Z) = Return [].
Proof.
  assert (Hp : has_pixels (Synthetic.flat_frame 2 3 (0, 0, 0, 255)%Z)).
  { split; [discriminate|]. repeat constructor; discriminate. }
  split; [exact Hp|]. split.
  - destruct (getPhraseROIs_empty_iff_no_large_contour
                (cv := Synthetic.detector [(10, 0, 50, 10); (0, 0, 300, 20)])
                Hp)
      as (mask & _ & _ & _ & Hsmall).
    apply Hsmall. repeat constructor; unfold too_small; simpl; lia.
  - destruct (getPhraseROIs_empty_iff_no_large_contour
                (cv := Synthetic.detector []) Hp)
      as (mask & _ & _ & _ & Hnone).
    apply Hnone. constructor.
Defined.

Lemma no_foreground_background_mask : no_foreground background_mask.
Proof.
  unfold no_foreground, background_mask. apply Forall_forall.
  intros row Hrow. apply repeat_spec in Hrow. subst row.
  apply Forall_forall. intros v Hv. apply repeat_spec in Hv. subst v.
  discriminate.
Qed.

(** C4 as stated, read on the pixels, fails: the mask of 30 rows and 520
    columns has no foreground pixel, and contour detection finds in it a
    blob that passes the size test, so a region is returned. *)
Lemma background_mask_counterexample :
  no_foreground background_mask
  /\ ~ exists cv : OpenCV,
        detects_frame_blob cv /\ empty_without_foreground cv.
Proof.
  split; [apply no_foreground_background_mask|].
  intros (cv & Hblob & Hclaim).
  specialize (Hclaim background_mask no_foreground_background_mask).
  apply extractROIs_empty_iff in Hclaim.
  unfold detects_frame_blob in Hblob. apply Exists_exists in Hblob.
  destruct Hblob as (c & Hc & Hlarge).
  rewrite Forall_forall in Hclaim. specialize (Hclaim c Hc).
  apply large_enough_iff in Hlarge. unfold too_small in Hclaim. lia.
Qed.

Example whole_frame_detects_frame_blob :
  detects_frame_blob whole_frame
  /\ extractROIs (cv := whole_frame) background_mask = [background_mask].
Proof. split; [left; reflexivity|vm_compute; reflexivity]. Qed.

Example one_large_one_small_blob :
  regionRects (cv := Synthetic.detector [(50, 0, 250, 25); (10, 0, 50, 10)]) []
  = [(50, 0, 250, 25)].
Proof. vm_compute. reflexivity. Qed.

Example two_large_blobs_in_reading_order :
  regionRects (cv := Synthetic.detector [(300, 0, 250, 25); (10, 0, 250, 25)])
    []
  = [(10, 0, 250, 25); (300, 0, 250, 25)].
Proof. vm_compute. reflexivity. Qed.

Example size_filter_is_strict :
  regionRects
    (cv := Synthetic.detector [(0, 0, 201, 20); (0, 0, 200, 21); (0, 0, 201, 21)])
    []
  = [(0, 0, 201, 21)].
Proof. vm_compute. reflexivity. Qed.

(* ================================================================== *)
(** * Properties of the pipeline *)

Section PipelineProperties.
Context {cv : OpenCV} {co : Collaborators}.

Lemma recognizeAll_ok (rois : list Mask) (texts : list string) :
  Forall2 (fun roi s => image_to_string roi = Return s) rois texts ->
  forall acc log,
    recognizeAll rois acc log
    = (Return (acc ++ texts), log ++ map EvRecognize rois).
Proof.
  induction 1 as [|roi s rois texts Hs _ IH]; intros acc log; simpl.
  - unfold ret. now rewrite !app_nil_r.
  - unfold bind, call. rewrite Hs, IH, <- !app_assoc. reflexivity.
Qed.

Lemma recognizeAll_raises (done : list Mask) (texts : list string)
      (bad : Mask) (rest : list Mask) (e : exn) :
  Forall2 (fun roi s => image_to_string roi = Return s) done texts ->
  image_to_string bad = Raised e ->
  forall acc log,
    recognizeAll (done ++ bad :: rest) acc log
    = (Raised e, log ++ map EvRecognize (done ++ [bad])).
Proof.
  intros Hdone Hbad.
  induction Hdone as [|roi s rois texts' Hs _ IH]; intros acc log; simpl.
  - unfold bind, call. now rewrite Hbad.
  - unfold bind, call. rewrite Hs, IH, <- !app_assoc. reflexivity.
Qed.

Lemma recognizeAll_log (rois : list Mask) :
  forall acc log,
    exists n, snd (recognizeAll rois acc log)
              = log ++ map EvRecognize (firstn n rois).
Proof.
  induction rois as [|roi rest IH]; intros acc log; simpl.
  - exists 0. simpl. now rewrite app_nil_r.
  - unfold bind, call. destruct (image_to_string roi) as [s|e].
    + destruct (IH (acc ++ [s]) (log ++ [EvRecognize roi])) as [n Hn].
      exists (S n). rewrite Hn, <- app_assoc. reflexivity.
    + exists 1. reflexivity.
Qed.

Lemma getPhraseROIs_returns (img : Frame) :
  exists rois, getPhraseROIs img = Return rois.
Proof. eexists. reflexivity. Qed.

Lemma recognitionStage_log :
  exists rois, snd (recognitionStage []) = EvGrab 2 :: map EvRecognize rois.
Proof.
  unfold recognitionStage, getPhraseStrings, getScreenshot, bind, call, lift.
  cbn -[getPhraseROIs recognizeAll].
  destruct (grab 2) as [img|e]; [|exists []; reflexivity].
  destruct (getPhraseROIs_returns img) as [rois Hr]. rewrite Hr.
  destruct (recognizeAll_log rois [] [EvGrab 2]) as [n Hn].
  exists (firstn n rois).
  destruct (recognizeAll rois [] [EvGrab 2]) as [[phrases|e] log];
    simpl in Hn; subst log; reflexivity.
Qed.

Lemma recognitionStage_no_alert :
  filter is_alert (snd (recognitionStage [])) = [].
Proof.
  destruct recognitionStage_log as [rois ->]. simpl.
  induction rois as [|r l IH]; [reflexivity|exact IH].
Qed.

Lemma runOCR_after_recognition (ss : list string) (log : list event) :
  runOCR ss log
  = match recognitionStage log with
    | (Return phrases, log') =>
        if hasMatchingPhrase phrases ss
        then (Return tt, log' ++ [EvPlay "quiet_alert.mp3" false])
        else (Return tt, log')
    | (Raised e, log') => (Raised e, log')
    end.
Proof.
  unfold runOCR, recognitionStage, bind.
  destruct (getScreenshot 2 log) as [[img|e] log1]; [|reflexivity].
  destruct (getPhraseStrings img log1) as [[phrases|e] log2]; [|reflexivity].
  destruct (hasMatchingPhrase phrases ss); reflexivity.
Qed.

Lemma alerts_after_recognition (ss : list string) :
  alerts ss
  = match fst (recognitionStage []) with
    | Return phrases =>
        if hasMatchingPhrase phrases ss
        then [EvPlay "quiet_alert.mp3" false]
        else []
    | Raised _ => []
    end.
Proof.
  pose proof recognitionStage_no_alert as Hno.
  unfold alerts. rewrite runOCR_after_recognition.
  destruct (recognitionStage []) as [[phrases|e] log]; simpl in *;
    [|exact Hno].
  destruct (hasMatchingPhrase phrases ss); simpl; [|exact Hno].
  now rewrite filter_app, Hno.
Qed.

(** C3: one run raises exactly one alert, a [playsound] call with
    [block=False], when the recognised phrases match the watch-list, and
    none when they do not or when no phrases were obtained.  The calls of
    a run are those of capture and recognition followed by its alerts, so
    a run that does not match ends with nothing beyond them. *)
Theorem runOCR_alerts_once_iff_matched (ss : list string) :
  alerts ss
  = match fst (recognitionStage []) with
    | Return phrases =>
        if hasMatchingPhrase phrases ss
        then [EvPlay "quiet_alert.mp3" false]
        else []
    | Raised _ => []
    end
  /\ snd (runOCR ss []) = snd (recognitionStage []) ++ alerts ss
  /\ filter is_alert (snd (recognitionStage [])) = []
  /\ fst (runOCR ss [])
     = match fst (recognitionStage []) with
       | Return _ => Return tt
       | Raised e => Raised e
       end.
Proof.
  split; [apply alerts_after_recognition|].
  split; [|split; [apply recognitionStage_no_alert|]].
  - rewrite alerts_after_recognition, runOCR_after_recognition.
    destruct (recognitionStage []) as [[phrases|e] log]; simpl;
      [|now rewrite app_nil_r].
    destruct (hasMatchingPhrase phrases ss); simpl;
      [reflexivity|now rewrite app_nil_r].
  - rewrite runOCR_after_recognition.
    destruct (recognitionStage []) as [[phrases|e] log]; simpl;
      [|reflexivity].
    destruct (hasMatchingPhrase phrases ss); reflexivity.
Qed.

Lemma recognitionStage_ok (img : Frame) (rois : list Mask)
      (texts : list string) :
  grab 2 = Return img ->
  getPhraseROIs img = Return rois ->
  Forall2 (fun roi s => image_to_string roi = Return s) rois texts ->
  recognitionStage [] = (Return texts, EvGrab 2 :: map EvRecognize rois).
Proof.
  intros Hg Hr Hall.
  unfold recognitionStage, getPhraseStrings, getScreenshot, bind, call, lift.
  rewrite Hg. cbn -[getPhraseROIs recognizeAll].
  rewrite Hr. now rewrite (recognizeAll_ok Hall).
Qed.

(** C9, as the code has it: nothing catches an error of the recogniser.
    When recognition raises on a region after succeeding on the ones
    before it, the run ends with that error: the regions after the failing
    one are never handed to the recogniser and no alert is raised. *)
Theorem recognition_error_aborts_run
        (img : Frame) (done : list Mask) (texts : list string)
        (bad : Mask) (rest : list Mask) (e : exn) (ss : list string) :
  grab 2 = Return img ->
  getPhraseROIs img = Return (done ++ bad :: rest) ->
  Forall2 (fun roi s => image_to_string roi = Return s) done texts ->
  image_to_string bad = Raised e ->
  runOCR ss []
  = (Raised e, EvGrab 2 :: map EvRecognize (done ++ [bad]))
  /\ alerts ss = [].
Proof.
  intros Hg Hr Hdone Hbad.
  assert (Hstage : recognitionStage []
                   = (Raised e, EvGrab 2 :: map EvRecognize (done ++ [bad]))).
  { unfold recognitionStage, getPhraseStrings, getScreenshot, bind, call, lift.
    rewrite Hg. cbn -[getPhraseROIs recognizeAll]. rewrite Hr.
    now rewrite (@recognizeAll_raises done texts bad rest e Hdone Hbad). }
  split.
  - rewrite runOCR_after_recognition, Hstage. reflexivity.
  - rewrite alerts_after_recognition, Hstage. reflexivity.
Qed.

End PipelineProperties.

Example two_blobs_regions :
  getPhraseROIs (cv := Synthetic.two_blobs) Synthetic.black_frame
  = Return [Synthetic.left_roi; Synthetic.right_roi].
Proof. vm_compute. reflexivity. Qed.

Lemma recognition_error_aborts_run_witness :
  @grab Synthetic.right_fails 2 = Return Synthetic.black_frame
  /\ getPhraseROIs (cv := Synthetic.two_blobs) Synthetic.black_frame
     = Return ([Synthetic.left_roi] ++ Synthetic.right_roi :: [])
  /\ Forall2 (fun roi s => @image_to_string Synthetic.right_fails roi = Return s)
       [Synthetic.left_roi] ["map"]
  /\ @image_to_string Synthetic.right_fails Synthetic.right_roi
     = Raised (CollaboratorError "pytesseract")
  /\ runOCR (cv := Synthetic.two_blobs) (co := Synthetic.right_fails)
       ["treasure"] []
     = (Raised (CollaboratorError "pytesseract"),
        EvGrab 2
        :: map EvRecognize ([Synthetic.left_roi] ++ [Synthetic.right_roi]))
  /\ alerts (cv := Synthetic.two_blobs) (co := Synthetic.right_fails)
       ["treasure"] = [].
Proof.
  assert (Hg : @grab Synthetic.right_fails 2 = Return Synthetic.black_frame)
    by reflexivity.
  assert (Hr : getPhraseROIs (cv := Synthetic.two_blobs) Synthetic.black_frame
               = Return ([Synthetic.left_roi] ++ Synthetic.right_roi :: []))
    by (vm_compute; reflexivity).
  assert (Hd : Forall2
                 (fun roi s =>
                    @image_to_string Synthetic.right_fails roi = Return s)
                 [Synthetic.left_roi] ["map"])
    by (constructor; [vm_compute; reflexivity|constructor]).
  assert (Hb : @image_to_string Synthetic.right_fails Synthetic.right_roi
               = Raised (CollaboratorError "pytesseract"))
    by (vm_compute; reflexivity).
  repeat (split; [assumption|]).
  exact (@recognition_error_aborts_run Synthetic.two_blobs
           Synthetic.right_fails Synthetic.black_frame [Synthetic.left_roi]
           ["map"] Synthetic.right_roi [] (CollaboratorError "pytesseract")
           ["treasure"] Hg Hr Hd Hb).
Defined.

(** C9 as stated fails: the recogniser raises on the first of two regions
    and would read a watch-list phrase in the second.  The run ends with
    the error after the first recognition call; the second region is never
    processed and no alert is raised, whereas a run that skipped the failed
    region would have matched. *)
Lemma recognition_failure_counterexample :
  getPhraseROIs (cv := Synthetic.two_blobs) Synthetic.black_frame
  = Return [Synthetic.left_roi; Synthetic.right_roi]
  /\ @image_to_string Synthetic.left_fails Synthetic.right_roi = Return "map"
  /\ hasMatchingPhrase ["map"] ["map"] = true
  /\ runOCR (cv := Synthetic.two_blobs) (co := Synthetic.left_fails)
       ["map"] []
     = (Raised (CollaboratorError "pytesseract"),
        [EvGrab 2; EvRecognize Synthetic.left_roi])
  /\ alerts (cv := Synthetic.two_blobs) (co := Synthetic.left_fails)
       ["map"] = [].
Proof. vm_compute. repeat split. Qed.

Example run_with_matching_phrase :
  runOCR (cv := Synthetic.two_blobs)
    (co := Synthetic.reads Synthetic.black_frame "Hello World") ["hello world"] []
  = (Return tt,
     [EvGrab 2; EvRecognize Synthetic.left_roi;
      EvRecognize Synthetic.right_roi; EvPlay "quiet_alert.mp3" false]).
Proof. vm_compute. reflexivity. Qed.

Example run_without_matching_phrase :
  runOCR (cv := Synthetic.two_blobs)
    (co := Synthetic.reads Synthetic.black_frame "Hello World") ["treasure"] []
  = (Return tt,
     [EvGrab 2; EvRecognize Synthetic.left_roi;
      EvRecognize Synthetic.right_roi]).
Proof. vm_compute. reflexivity. Qed.

(* ================================================================== *)
(** * Blank lines of the watch-list *)

Lemma splitlines_from_LF (cur post : string) :
  PyStr.splitlines_from cur (String PyStr.LF post)
  = cur :: PyStr.splitlines_from EmptyString post.
Proof. destruct post; reflexivity. Qed.

Lemma splitlines_from_blank_line (post : string) (n : nat) :
  forall pre cur,
    String.length pre <= n ->
    In EmptyString
       (PyStr.splitlines_from cur
          (String.append pre (String PyStr.LF (String PyStr.LF post)))).
Proof.
  induction n as [|n IH]; intros pre cur Hlen.
  - destruct pre; [|simpl in Hlen; lia].
    cbn [String.append]. rewrite !splitlines_from_LF. right. now left.
  - destruct pre as [|c pre']; [apply (IH EmptyString); simpl; lia|].
    simpl in Hlen. cbn [String.append PyStr.splitlines_from].
    destruct (PyStr.is_linebreak c).
    + destruct pre' as [|c' pre''].
      * cbn [String.append].
        destruct (Ascii.eqb c PyStr.CR && Ascii.eqb PyStr.LF PyStr.LF).
        -- right. rewrite splitlines_from_LF. now left.
        -- right. rewrite !splitlines_from_LF. right. now left.
      * cbn [String.append].
        destruct (Ascii.eqb c PyStr.CR && Ascii.eqb c' PyStr.LF).
        -- right. apply IH. simpl in Hlen. lia.
        -- right. apply (IH (String c' pre'')). simpl in *. lia.
    + apply IH. lia.
Qed.

Lemma empty_pair_meets_cutoff : meets_cutoff "" "".
Proof. unfold meets_cutoff. apply Qle_bool_iff. reflexivity. Qed.

Section BlankLine.
Context {cv : OpenCV} {co : Collaborators}.

(** C10: the ratio of two empty strings is 1, at least the cutoff, so
    [hasMatchingPhrase [""] [""]] is true, and so is any match of
    candidates and targets that both hold the empty string.  The loader
    keeps a blank line of the file as an empty watch-list entry.  With such
    an entry, a run in which recognition succeeds and reads the empty text
    in some region raises the alert. *)
Theorem blank_line_matches_empty_text :
  (Lv.normalized_similarity "" "" == 1)%Q
  /\ hasMatchingPhrase [""] [""] = true
  /\ (forall ps ss, In "" ps -> In "" ss -> hasMatchingPhrase ps ss = true)
  /\ (forall pre post,
        In "" (getSearchStrings
                 (String.append pre (String PyStr.LF (String PyStr.LF post)))))
  /\ (forall post, In "" (getSearchStrings (String PyStr.LF post)))
  /\ (forall img rois texts ss,
        grab 2 = Return img ->
        getPhraseROIs img = Return rois ->
        Forall2 (fun roi s => image_to_string roi = Return s) rois texts ->
        In "" texts -> In "" ss ->
        alerts ss = [EvPlay "quiet_alert.mp3" false]).
Proof.
  assert (Hany : forall ps ss,
             In "" ps -> In "" ss -> hasMatchingPhrase ps ss = true).
  { intros ps ss Hp Hs. apply hasMatchingPhrase_true_iff.
    exists "", "". repeat split; trivial. apply empty_pair_meets_cutoff. }
  split; [reflexivity|]. split; [reflexivity|]. split; [exact Hany|].
  split; [|split].
  - intros pre post. unfold getSearchStrings, PyStr.splitlines.
    now apply (@splitlines_from_blank_line post (String.length pre)).
  - intros post. unfold getSearchStrings, PyStr.splitlines.
    rewrite splitlines_from_LF. now left.
  - intros img rois texts ss Hg Hr Hall Ht Hs.
    rewrite alerts_after_recognition, (recognitionStage_ok Hg Hr Hall).
    simpl. now rewrite (Hany texts ss Ht Hs).
Qed.

End BlankLine.

Lemma blank_line_matches_empty_text_witness :
  In "" (getSearchStrings
           (String.append "map"
              (String PyStr.LF (String PyStr.LF "treasure"))))
  /\ alerts (cv := Synthetic.two_blobs)
       (co := Synthetic.reads Synthetic.black_frame "")
       (getSearchStrings
          (String.append "map"
             (String PyStr.LF (String PyStr.LF "treasure"))))
     = [EvPlay "quiet_alert.mp3" false].
Proof.
  destruct (@blank_line_matches_empty_text Synthetic.two_blobs
              (Synthetic.reads Synthetic.black_frame ""))
    as (_ & _ & _ & Hblank & _ & Hrun).
  split; [apply Hblank|].
  apply (Hrun Synthetic.black_frame
           [Synthetic.left_roi; Synthetic.right_roi] [""; ""]).
  - reflexivity.
  - vm_compute. reflexivity.
  - repeat constructor.
  - now left.
  - apply Hblank.
Defined.

Example watch_list_with_blank_line :
  getSearchStrings
    (String.append "map" (String PyStr.LF (String PyStr.LF "treasure")))
  = ["map"; ""; "treasure"].
Proof. vm_compute. reflexivity. Qed.

(* ================================================================== *)
(** * Further properties of the phrase matcher *)

Lemma hasMatchingPhrase_false_iff (ps ss : list string) :
  hasMatchingPhrase ps ss = false
  <-> forall p t, In p ps -> In t ss -> ~ meets_cutoff p t.
Proof.
  rewrite <- Bool.not_true_iff_false, hasMatchingPhrase_true_iff. split.
  - intros H p t Hp Ht Hm. apply H. now exists p, t.
  - intros H (p & t & Hp & Ht & Hm). exact (H p t Hp Ht Hm).
Qed.

Lemma hasMatchingPhrase_no_targets (ps : list string) :
  hasMatchingPhrase ps [] = false.
Proof.
  apply hasMatchingPhrase_false_iff. intros p t _ [].
Qed.

(** X1: The match decision over appended lists is the disjunction of the
    decisions over the parts, in the candidates and in the watch-list; so
    recognising more phrases or watching more targets never withdraws a
    match. *)
Theorem hasMatchingPhrase_app (ps1 ps2 ss1 ss2 : list string) :
  hasMatchingPhrase (ps1 ++ ps2) ss1
  = hasMatchingPhrase ps1 ss1 || hasMatchingPhrase ps2 ss1
  /\ hasMatchingPhrase ps1 (ss1 ++ ss2)
     = hasMatchingPhrase ps1 ss1 || hasMatchingPhrase ps1 ss2.
Proof.
  split; apply Bool.eq_iff_eq_true;
    rewrite orb_true_iff, !hasMatchingPhrase_true_iff; split.
  - intros (p & t & Hp & Ht & Hm). apply in_app_or in Hp.
    destruct Hp; [left|right]; now exists p, t.
  - intros [(p & t & Hp & Ht & Hm)|(p & t & Hp & Ht & Hm)];
      exists p, t; (split; [apply in_or_app; tauto|tauto]).
  - intros (p & t & Hp & Ht & Hm). apply in_app_or in Ht.
    destruct Ht; [left|right]; now exists p, t.
  - intros [(p & t & Hp & Ht & Hm)|(p & t & Hp & Ht & Hm)];
      exists p, t; (split; [tauto|split; [apply in_or_app; tauto|tauto]]).
Qed.

(** X2: The match decision does not depend on the order of the candidates or
    of the watch-list. *)
Theorem hasMatchingPhrase_order_irrelevant (ps ps' ss ss' : list string) :
  Permutation ps ps' -> Permutation ss ss' ->
  hasMatchingPhrase ps ss = hasMatchingPhrase ps' ss'.
Proof.
  intros Hps Hss. apply Bool.eq_iff_eq_true.
  rewrite !hasMatchingPhrase_true_iff. split.
  - intros (p & t & Hp & Ht & Hm). exists p, t.
    split; [eapply Permutation_in; eassumption|].
    split; [eapply Permutation_in; eassumption|exact Hm].
  - intros (p & t & Hp & Ht & Hm). exists p, t.
    split; [eapply Permutation_in; [symmetry|]; eassumption|].
    split; [eapply Permutation_in; [symmetry|]; eassumption|exact Hm].
Qed.

Lemma hasMatchingPhrase_order_irrelevant_witness :
  hasMatchingPhrase ["Map"; "xyz"] ["abc"; "map"]
  = hasMatchingPhrase ["xyz"; "Map"] ["map"; "abc"].
Proof.
  apply hasMatchingPhrase_order_irrelevant; apply perm_swap.
Defined.

Lemma indel_distance_self (s : string) : Lv.indel_distance s s = 0.
Proof.
  induction s as [|c r IH]; [reflexivity|].
  simpl. now rewrite Ascii.eqb_refl.
Qed.

Lemma indel_distance_zero (a : string) :
  forall b, Lv.indel_distance a b = 0 -> a = b.
Proof.
  induction a as [|c r IH]; intros b H.
  - destruct b; [reflexivity|discriminate].
  - destruct b as [|c' r']; [discriminate|].
    simpl in H. destruct (Ascii.eqb c c') eqn:E; [|discriminate].
    apply Ascii.eqb_eq in E. subst c'. f_equal. now apply IH.
Qed.

Lemma length_lower (s : string) :
  String.length (PyStr.lower s) = String.length s.
Proof. induction s as [|c r IH]; simpl; [reflexivity|now rewrite IH]. Qed.

Lemma lower_empty (s : string) : PyStr.lower s = "" <-> s = "".
Proof. destruct s; simpl; split; intros H; try reflexivity; discriminate. Qed.

(** The cutoff in whole numbers: the ratio is at least 0.90 exactly when
    ten times the insertion/deletion distance is at most the sum of the two
    lengths. *)
Lemma cutoff_in_edits (a b : string) :
  (score_cutoff <= Lv.normalized_similarity a b)%Q
  <-> 10 * Lv.indel_distance a b <= String.length a + String.length b.
Proof.
  unfold Lv.normalized_similarity, score_cutoff.
  destruct (String.length a + String.length b) as [|m] eqn:Em.
  - simpl. destruct a; [|discriminate]. destruct b; [|discriminate].
    simpl. split; [lia|]. intros _. unfold Qle. simpl. lia.
  - cbn [Nat.eqb]. unfold Lv.Qnat, Qle, Qminus, Qplus, Qopp, Qdiv, Qmult, Qinv.
    cbn [Qnum Qden inject_Z].
    destruct (Z.of_nat (S m)) as [|q|q] eqn:Eq; try lia.
    cbn [Qnum Qden]. rewrite !Pos.mul_1_l. lia.
Qed.

Lemma meets_cutoff_in_edits (p t : string) :
  meets_cutoff p t
  <-> 10 * Lv.indel_distance (PyStr.lower p) t
      <= String.length p + String.length t.
Proof. unfold meets_cutoff. now rewrite cutoff_in_edits, length_lower. Qed.

(** X3: The tolerance of the matcher in edits: there is a match exactly when
    some candidate, lower-cased, can be turned into some target with a
    number of character insertions and deletions that is at most one tenth
    of the combined length of the two strings. *)
Theorem hasMatchingPhrase_edit_tolerance (ps ss : list string) :
  hasMatchingPhrase ps ss = true
  <-> exists p t,
        In p ps /\ In t ss
        /\ 10 * Lv.indel_distance (PyStr.lower p) t
           <= String.length p + String.length t.
Proof.
  rewrite hasMatchingPhrase_true_iff.
  split; intros (p & t & Hp & Ht & Hm); exists p, t;
    (split; [exact Hp|split; [exact Ht|now apply meets_cutoff_in_edits]]).
Qed.

Lemma exact_pair_meets_cutoff (p : string) :
  meets_cutoff p (PyStr.lower p).
Proof.
  apply meets_cutoff_in_edits. rewrite indel_distance_self. simpl. lia.
Qed.

(** X4: A candidate that equals a watch-list entry once lower-cased always
    matches. *)
Theorem hasMatchingPhrase_exact (ps ss : list string) (p : string) :
  In p ps -> In (PyStr.lower p) ss -> hasMatchingPhrase ps ss = true.
Proof.
  intros Hp Ht. apply hasMatchingPhrase_true_iff.
  exists p, (PyStr.lower p). split; [exact Hp|]. split; [exact Ht|].
  apply exact_pair_meets_cutoff.
Qed.

Lemma hasMatchingPhrase_exact_witness :
  hasMatchingPhrase ["noise"; "Treasure Map"] ["treasure map"] = true.
Proof.
  apply (@hasMatchingPhrase_exact _ _ "Treasure Map").
  - right. left. reflexivity.
  - left. reflexivity.
Defined.

(** X5: Short phrases get no tolerance: when the lower-cased candidate and
    the target have fewer than ten characters between them, they match
    only if the lower-cased candidate is the target itself. *)
Theorem short_phrases_match_exactly (p t : string) :
  String.length (PyStr.lower p) + String.length t < 10 ->
  (hasMatchingPhrase [p] [t] = true <-> PyStr.lower p = t).
Proof.
  intros Hshort. rewrite hasMatchingPhrase_true_iff. split.
  - intros (p' & t' & [<-|[]] & [<-|[]] & Hm).
    unfold meets_cutoff in Hm. apply cutoff_in_edits in Hm.
    apply indel_distance_zero. lia.
  - intros <-. exists p, (PyStr.lower p).
    split; [now left|]. split; [now left|].
    unfold meets_cutoff. apply cutoff_in_edits.
    rewrite indel_distance_self. simpl. lia.
Qed.

Lemma short_phrases_match_exactly_witness :
  String.length (PyStr.lower "Map") + String.length "map" < 10
  /\ (hasMatchingPhrase ["Map"] ["map"] = true <-> PyStr.lower "Map" = "map").
Proof.
  assert (H : String.length (PyStr.lower "Map") + String.length "map" < 10)
    by (simpl; lia).
  split; [exact H|]. exact (short_phrases_match_exactly "Map" "map" H).
Defined.

Example one_edit_in_a_short_phrase :
  hasMatchingPhrase ["maps"] ["map"] = false.
Proof. vm_compute. reflexivity. Qed.

Lemma indel_distance_empty_l (t : string) :
  Lv.indel_distance "" t = String.length t.
Proof. destruct t; reflexivity. Qed.

Lemma indel_distance_empty_r (s : string) :
  Lv.indel_distance s "" = String.length s.
Proof. destruct s; reflexivity. Qed.

(** X6: An empty watch-list entry is matched by an empty candidate and by no
    other, and an empty candidate matches an empty entry and no other. *)
Theorem empty_string_matches_only_empty (ps ss : list string) :
  (hasMatchingPhrase ps [""] = true <-> In "" ps)
  /\ (hasMatchingPhrase [""] ss = true <-> In "" ss).
Proof.
  split; rewrite hasMatchingPhrase_true_iff; split.
  - intros (p & t & Hp & [<-|[]] & Hm).
    apply meets_cutoff_in_edits in Hm.
    rewrite indel_distance_empty_r, length_lower in Hm. simpl in Hm.
    destruct p; [exact Hp|simpl in Hm; lia].
  - intros Hin. exists "", "". split; [exact Hin|]. split; [now left|].
    apply empty_pair_meets_cutoff.
  - intros (p & t & [<-|[]] & Ht & Hm).
    apply meets_cutoff_in_edits in Hm.
    simpl PyStr.lower in Hm. rewrite indel_distance_empty_l in Hm.
    simpl in Hm. destruct t; [exact Ht|simpl in Hm; lia].
  - intros Hin. exists "", "". split; [now left|]. split; [exact Hin|].
    apply empty_pair_meets_cutoff.
Qed.

(* ================================================================== *)
(** * Further properties of the watch-list loader *)

Lemma append_assoc_char (cur : string) (c : ascii) (l : string) :
  String.append (String.append cur (String c EmptyString)) l
  = String.append cur (String c l).
Proof. induction cur as [|a r IH]; simpl; [reflexivity|now rewrite IH]. Qed.

Lemma append_assoc (a b c : string) :
  String.append (String.append a b) c = String.append a (String.append b c).
Proof. induction a as [|x r IH]; simpl; [reflexivity|now rewrite IH]. Qed.

Lemma append_empty_r (s : string) : String.append s EmptyString = s.
Proof. induction s as [|a r IH]; simpl; [reflexivity|now rewrite IH]. Qed.

Lemma has_linebreak_app (a b : string) :
  has_linebreak (String.append a b) = has_linebreak a || has_linebreak b.
Proof.
  induction a as [|c r IH]; simpl; [reflexivity|].
  now rewrite IH, orb_assoc.
Qed.

Lemma is_linebreak_LF : PyStr.is_linebreak PyStr.LF = true.
Proof. reflexivity. Qed.

Lemma is_linebreak_CR : PyStr.is_linebreak PyStr.CR = true.
Proof. reflexivity. Qed.

(** Reading a line without boundary characters up to its terminator. *)
Lemma splitlines_from_line_LF (l : string) :
  has_linebreak l = false ->
  forall cur rest,
    PyStr.splitlines_from cur (String.append l (String PyStr.LF rest))
    = String.append cur l :: PyStr.splitlines_from EmptyString rest.
Proof.
  induction l as [|c r IH]; intros Hl cur rest.
  - cbn [String.append]. now rewrite splitlines_from_LF, append_empty_r.
  - simpl in Hl. apply orb_false_iff in Hl. destruct Hl as [Hc Hr].
    cbn [String.append PyStr.splitlines_from]. rewrite Hc.
    now rewrite IH, append_assoc_char.
Qed.

Lemma splitlines_from_CRLF (cur rest : string) :
  PyStr.splitlines_from cur (String PyStr.CR (String PyStr.LF rest))
  = cur :: PyStr.splitlines_from EmptyString rest.
Proof. reflexivity. Qed.

Lemma splitlines_from_line_CRLF (l : string) :
  has_linebreak l = false ->
  forall cur rest,
    PyStr.splitlines_from cur
      (String.append l (String PyStr.CR (String PyStr.LF rest)))
    = String.append cur l :: PyStr.splitlines_from EmptyString rest.
Proof.
  induction l as [|c r IH]; intros Hl cur rest.
  - cbn [String.append]. now rewrite splitlines_from_CRLF, append_empty_r.
  - simpl in Hl. apply orb_false_iff in Hl. destruct Hl as [Hc Hr].
    cbn [String.append PyStr.splitlines_from]. rewrite Hc.
    now rewrite IH, append_assoc_char.
Qed.

Lemma splitlines_from_last (l : string) :
  has_linebreak l = false ->
  forall cur,
    PyStr.splitlines_from cur l
    = match String.append cur l with
      | EmptyString => []
      | _ => [String.append cur l]
      end.
Proof.
  induction l as [|c r IH]; intros Hl cur.
  - simpl. rewrite append_empty_r. reflexivity.
  - simpl in Hl. apply orb_false_iff in Hl. destruct Hl as [Hc Hr].
    cbn [PyStr.splitlines_from]. rewrite Hc.
    now rewrite IH, append_assoc_char.
Qed.

(** X7: Round trip of the watch-list file: a file that holds phrases free of
    line-boundary characters, each followed by a newline (or each by
    carriage return and newline), and after them a last phrase without
    terminator, loads as exactly those phrases, in order, blank ones
    included; an empty last phrase adds no entry. *)
Theorem getSearchStrings_round_trip (lines : list string) (final : string) :
  Forall (fun l => has_linebreak l = false) lines ->
  has_linebreak final = false ->
  let tail := match final with EmptyString => [] | _ => [final] end in
  getSearchStrings (String.append (terminated NL lines) final)
  = lines ++ tail
  /\ getSearchStrings (String.append (terminated CRLF lines) final)
     = lines ++ tail.
Proof.
  intros Hlines Hfinal tail. unfold getSearchStrings, PyStr.splitlines.
  induction Hlines as [|l rest Hl _ [IH1 IH2]].
  - simpl. rewrite (@splitlines_from_last final Hfinal). simpl. now split.
  - cbn [terminated]. unfold NL, CRLF in *.
    rewrite !append_assoc. cbn [String.append]. split.
    + rewrite (@splitlines_from_line_LF l Hl). simpl. now rewrite IH1.
    + rewrite (@splitlines_from_line_CRLF l Hl). simpl. now rewrite IH2.
Qed.

Lemma getSearchStrings_round_trip_witness :
  getSearchStrings
    (String.append (terminated NL ["treasure map"; ""; "sextant"]) "last")
  = ["treasure map"; ""; "sextant"] ++ ["last"]
  /\ getSearchStrings
       (String.append (terminated CRLF ["treasure map"; ""; "sextant"]) "last")
     = ["treasure map"; ""; "sextant"] ++ ["last"].
Proof.
  apply (@getSearchStrings_round_trip ["treasure map"; ""; "sextant"] "last").
  - repeat constructor.
  - reflexivity.
Defined.

Lemma splitlines_from_no_linebreak (n : nat) :
  forall s cur,
    String.length s <= n ->
    has_linebreak cur = false ->
    Forall (fun l => has_linebreak l = false) (PyStr.splitlines_from cur s).
Proof.
  induction n as [|n IH]; intros s cur Hlen Hcur.
  - destruct s; [|simpl in Hlen; lia]. simpl.
    destruct cur; constructor; [exact Hcur|constructor].
  - destruct s as [|c rest].
    + simpl. destruct cur; constructor; [exact Hcur|constructor].
    + simpl in Hlen. cbn [PyStr.splitlines_from].
      destruct (PyStr.is_linebreak c) eqn:Ec.
      * destruct rest as [|c' rest'].
        -- constructor; [exact Hcur|]. apply IH; [simpl; lia|reflexivity].
        -- destruct (Ascii.eqb c PyStr.CR && Ascii.eqb c' PyStr.LF);
             (constructor; [exact Hcur|]);
             (apply IH; [simpl in *; lia|reflexivity]).
      * apply IH; [lia|].
        rewrite has_linebreak_app, Hcur. simpl. now rewrite Ec.
Qed.

(** X8: No entry of the loaded watch-list holds a line-boundary character,
    whatever the text of the file. *)
Theorem getSearchStrings_entries_one_line (text : string) :
  Forall (fun l => has_linebreak l = false) (getSearchStrings text).
Proof.
  unfold getSearchStrings, PyStr.splitlines.
  now apply (@splitlines_from_no_linebreak (String.length text)).
Qed.

Lemma splitlines_from_occurs (n : nat) :
  forall s cur l,
    String.length s <= n ->
    In l (PyStr.splitlines_from cur s) ->
    occurs_in l (String.append cur s).
Proof.
  induction n as [|n IH]; intros s cur l Hlen Hin.
  - destruct s; [|simpl in Hlen; lia]. simpl in Hin.
    rewrite append_empty_r. destruct cur; [destruct Hin|].
    destruct Hin as [<-|[]]. exists EmptyString, EmptyString.
    simpl. now rewrite append_empty_r.
  - destruct s as [|c rest].
    + simpl in Hin. rewrite append_empty_r. destruct cur; [destruct Hin|].
      destruct Hin as [<-|[]]. exists EmptyString, EmptyString.
      simpl. now rewrite append_empty_r.
    + simpl in Hlen. cbn [PyStr.splitlines_from] in Hin.
      destruct (PyStr.is_linebreak c).
      * assert (Hcur : occurs_in cur (String.append cur (String c rest)))
          by (exists EmptyString, (String c rest); reflexivity).
        assert (Hrest : forall rest',
                   (exists skipped, String c rest
                                    = String.append skipped rest') ->
                   String.length rest' <= n ->
                   In l (PyStr.splitlines_from EmptyString rest') ->
                   occurs_in l (String.append cur (String c rest))).
        { intros rest' [skipped Hs] Hn Hl.
          destruct (IH rest' EmptyString l Hn Hl) as (pre & post & E).
          simpl in E. exists (String.append cur (String.append skipped pre)), post.
          now rewrite Hs, E, !append_assoc. }
        destruct rest as [|c' rest'].
        -- destruct Hin as [<-|Hin]; [exact Hcur|].
           apply (Hrest EmptyString); [|simpl; lia|exact Hin].
           exists (String c EmptyString). reflexivity.
        -- destruct (Ascii.eqb c PyStr.CR && Ascii.eqb c' PyStr.LF);
             (destruct Hin as [<-|Hin]; [exact Hcur|]).
           ++ apply (Hrest rest'); [|simpl in Hlen; lia|exact Hin].
              exists (String c (String c' EmptyString)). reflexivity.
           ++ apply (Hrest (String c' rest')); [|simpl in *; lia|exact Hin].
              exists (String c EmptyString). reflexivity.
      * rewrite <- append_assoc_char. apply IH; [lia|exact Hin].
Qed.

Lemma getSearchStrings_terminated (lines : list string) :
  Forall (fun l => has_linebreak l = false) lines ->
  getSearchStrings (terminated NL lines) = lines.
Proof.
  unfold getSearchStrings, PyStr.splitlines.
  induction 1 as [|l rest Hl _ IH]; [reflexivity|].
  cbn [terminated]. unfold NL in *. cbn [String.append].
  rewrite (@splitlines_from_line_LF l Hl). simpl. now rewrite IH.
Qed.

(** C8, as the code has it: the match decision is case-insensitive in the
    candidates only.  Lower-casing every candidate leaves the result
    unchanged, since each candidate is folded when it is compared.  A
    target is compared exactly as loaded: every comparison made pairs a
    lower-cased candidate with a watch-list entry unchanged, so
    lower-casing the watch-list leaves the result unchanged when its
    entries are lower-case already.  The loader does not fold either:
    every entry it returns occurs character for character in the text of
    the file, and a file of newline-terminated lines loads as those lines
    unchanged, so matching against the loaded list is matching against
    the lines as written. *)
Theorem hasMatchingPhrase_folds_candidates_only (ps ss : list string) :
  hasMatchingPhrase (map PyStr.lower ps) ss = hasMatchingPhrase ps ss
  /\ (forall c, In c (snd (hasMatchingPhrase_calls ps ss)) ->
        In (snd c) ss /\ exists p, In p ps /\ fst c = PyStr.lower p)
  /\ (Forall (fun t => PyStr.lower t = t) ss ->
        hasMatchingPhrase ps (map PyStr.lower ss) = hasMatchingPhrase ps ss)
  /\ (forall text entry,
        In entry (getSearchStrings text) -> occurs_in entry text)
  /\ (Forall (fun l => has_linebreak l = false) ss ->
        getSearchStrings (terminated NL ss) = ss
        /\ hasMatchingPhrase ps (getSearchStrings (terminated NL ss))
           = hasMatchingPhrase ps ss).
Proof.
  split; [apply hasMatchingPhrase_lower_candidates|].
  split; [apply calls_use_targets_as_loaded|].
  split; [intros H; now rewrite (map_fixed _ H)|].
  split.
  - intros text entry Hin.
    exact (@splitlines_from_occurs (String.length text) text EmptyString
             entry (le_n _) Hin).
  - intros H. rewrite (getSearchStrings_terminated H). now split.
Qed.

Lemma hasMatchingPhrase_folds_candidates_only_witness :
  hasMatchingPhrase (map PyStr.lower ["Hello World"]) ["hello world"; "map"]
  = hasMatchingPhrase ["Hello World"] ["hello world"; "map"]
  /\ hasMatchingPhrase ["Hello World"] (map PyStr.lower ["hello world"; "map"])
     = hasMatchingPhrase ["Hello World"] ["hello world"; "map"]
  /\ getSearchStrings (terminated NL ["HELLO World"; "map"])
     = ["HELLO World"; "map"]
  /\ hasMatchingPhrase ["hello world"]
       (getSearchStrings (terminated NL ["HELLO World"; "map"]))
     = hasMatchingPhrase ["hello world"] ["HELLO World"; "map"].
Proof.
  destruct (hasMatchingPhrase_folds_candidates_only
              ["Hello World"] ["hello world"; "map"]) as (H1 & _ & H2 & _).
  split; [exact H1|]. split; [apply H2; repeat constructor|].
  destruct (hasMatchingPhrase_folds_candidates_only
              ["hello world"] ["HELLO World"; "map"]) as (_ & _ & _ & _ & H3).
  apply H3. repeat constructor.
Defined.

Example uppercase_entry_loaded_as_written :
  getSearchStrings (terminated NL ["HELLO"]) = ["HELLO"]
  /\ hasMatchingPhrase ["hello"] (getSearchStrings (terminated NL ["HELLO"]))
     = false.
Proof. vm_compute. split; reflexivity. Qed.

(* ================================================================== *)
(** * Further properties of the colour bounds and of the mask *)

(** X9: [getHSVBounds] returns exactly for the two presets, and whatever it
    returns is a valid pair of bounds: two 3-vectors, each lower channel at
    most the upper one, all within 0..255. *)
Theorem getHSVBounds_returns_valid_presets (mode : string) :
  ((exists b, getHSVBounds mode = Return b)
   <-> mode = "sextants" \/ mode = "equipment")
  /\ (forall lower upper,
        getHSVBounds mode = Return (lower, upper) ->
        exists lo hi, lower = bounds_array lo /\ upper = bounds_array hi
                      /\ valid_bounds lo hi).
Proof.
  destruct (String.eqb_spec mode "sextants") as [->|H1].
  - split; [split; [now left|intros _; eexists; reflexivity]|].
    intros lower upper H. injection H as <- <-.
    exists (102, 57, 180)%Z, (103, 61, 255)%Z. simpl. repeat split; lia.
  - destruct (String.eqb_spec mode "equipment") as [->|H2].
    + split; [split; [now right|intros _; eexists; reflexivity]|].
      intros lower upper H. injection H as <- <-.
      exists (120, 119, 165)%Z, (121, 123, 255)%Z. simpl. repeat split; lia.
    + rewrite (getHSVBounds_other_mode H1 H2). split.
      * split; [intros [b Hb]; discriminate|intros [E|E]; contradiction].
      * intros lower upper H. discriminate.
Qed.

Lemma getHSVBounds_returns_valid_presets_witness :
  exists lo hi,
    Np.Arr1 [102; 57; 180]%Z = bounds_array lo
    /\ Np.Arr1 [103; 61; 255]%Z = bounds_array hi
    /\ valid_bounds lo hi.
Proof.
  destruct (getHSVBounds_returns_valid_presets "sextants") as [_ H].
  apply H. reflexivity.
Defined.

Section MaskProperties.
Context {cv : OpenCV}.

Lemma getIsolatedText_pixelwise (img : Frame) :
  getIsolatedText img
  = Return (map (map (fun p =>
      if Cv.in_bounds (120, 119, 165)%Z (121, 123, 255)%Z (bgr2hsv p)
      then background else foreground)) img).
Proof.
  exact (isolate_pixelwise img (120, 119, 165)%Z (121, 123, 255)%Z).
Qed.

Lemma pixelwise_binary {A} (f : A -> bool) (l : list (list A)) :
  binary (map (map (fun p => if f p then background else foreground)) l).
Proof.
  unfold binary. apply Forall_forall. intros row Hrow.
  apply in_map_iff in Hrow. destruct Hrow as (r & <- & _).
  apply Forall_forall. intros v Hv. apply in_map_iff in Hv.
  destruct Hv as (p & <- & _). destruct (f p); [now left|now right].
Qed.

(** X10: for a frame with pixels [getIsolatedText] returns a mask that has
    the shape of the frame (as many rows, each as long as the frame's) and
    is binary: every pixel is 0 or 255. *)
Theorem getIsolatedText_shape_and_values (img : Frame) :
  has_pixels img ->
  exists mask,
    getIsolatedText img = Return mask
    /\ List.length mask = List.length img
    /\ map (@List.length Z) mask = map (@List.length BGRA) img
    /\ binary mask.
Proof.
  intros _. eexists. split; [apply getIsolatedText_pixelwise|].
  split; [apply length_map|]. split.
  - rewrite map_map. apply map_ext. intros row. apply length_map.
  - apply (pixelwise_binary
             (fun p => Cv.in_bounds (120, 119, 165)%Z (121, 123, 255)%Z
                         (bgr2hsv p))).
Qed.

Lemma in_window {A} (n k : nat) (l : list A) (a : A) :
  In a (firstn n (skipn k l)) -> In a l.
Proof.
  intros H. rewrite <- (firstn_skipn k l). apply in_or_app. right.
  rewrite <- (firstn_skipn n (skipn k l)). apply in_or_app. now left.
Qed.

Lemma crop_rows (mask : Mask) (r : Rect) (row : list Z) :
  In row (crop mask r) ->
  exists full, In full mask
               /\ row = firstn (rect_w r) (skipn (rect_x r) full).
Proof.
  destruct r as [[[x y] w] h]. unfold crop. simpl. intros H.
  apply in_map_iff in H. destruct H as (full & <- & Hfull).
  exists full. split; [|reflexivity]. exact (in_window _ _ _ _ Hfull).
Qed.

Lemma crop_binary (mask : Mask) (r : Rect) :
  binary mask -> binary (crop mask r).
Proof.
  unfold binary. intros Hm. apply Forall_forall. intros row Hrow.
  destruct (crop_rows _ _ _ Hrow) as (full & Hfull & ->).
  rewrite Forall_forall in Hm. specialize (Hm full Hfull).
  apply Forall_forall. intros v Hv.
  rewrite Forall_forall in Hm. apply Hm. exact (in_window _ _ _ _ Hv).
Qed.

(** X11: Every region handed to the recogniser is cut from the binary mask:
    for a frame with pixels [getPhraseROIs] returns regions in which each
    pixel is 0 or 255. *)
Theorem getPhraseROIs_regions_binary (img : Frame) :
  has_pixels img ->
  exists rois,
    getPhraseROIs img = Return rois /\ Forall binary rois.
Proof.
  intros _. eexists. split.
  - unfold getPhraseROIs. rewrite getIsolatedText_pixelwise. reflexivity.
  - rewrite extractROIs_regionRects. apply Forall_forall. intros roi Hroi.
    apply in_map_iff in Hroi. destruct Hroi as (r & <- & _).
    apply crop_binary. apply pixelwise_binary.
Qed.

End MaskProperties.

Lemma black_frame_has_pixels : has_pixels Synthetic.black_frame.
Proof.
  split; [discriminate|]. apply Forall_forall. intros row Hrow.
  apply repeat_spec in Hrow. subst row. discriminate.
Qed.

Lemma getIsolatedText_shape_and_values_witness :
  has_pixels Synthetic.black_frame
  /\ exists mask,
       getIsolatedText (cv := Synthetic.two_blobs) Synthetic.black_frame
       = Return mask
       /\ List.length mask = List.length Synthetic.black_frame
       /\ map (@List.length Z) mask
          = map (@List.length BGRA) Synthetic.black_frame
       /\ binary mask.
Proof.
  split; [apply black_frame_has_pixels|].
  exact (getIsolatedText_shape_and_values (cv := Synthetic.two_blobs)
           black_frame_has_pixels).
Defined.

Lemma getPhraseROIs_regions_binary_witness :
  has_pixels Synthetic.black_frame
  /\ exists rois,
       getPhraseROIs (cv := Synthetic.two_blobs) Synthetic.black_frame
       = Return rois
       /\ Forall binary rois.
Proof.
  split; [apply black_frame_has_pixels|].
  exact (getPhraseROIs_regions_binary (cv := Synthetic.two_blobs)
           black_frame_has_pixels).
Defined.

(* ================================================================== *)
(** * Further properties of region extraction *)

Lemma sorted_lists_equal {A} (key : A -> nat) (l1 : list A) :
  forall l2,
    StronglySorted (fun u v => key u <= key v) l1 ->
    StronglySorted (fun u v => key u <= key v) l2 ->
    Permutation l1 l2 ->
    NoDup (map key l1) ->
    l1 = l2.
Proof.
  induction l1 as [|a r1 IH]; intros l2 S1 S2 P N.
  - apply Permutation_nil in P. now subst.
  - destruct l2 as [|b r2];
      [apply Permutation_sym, Permutation_nil in P; discriminate|].
    inversion S1 as [|? ? S1' Ha]; subst.
    inversion S2 as [|? ? S2' Hb]; subst.
    inversion N as [|? ? Hnotin N']; subst.
    assert (Hab : a = b).
    { assert (Hb1 : In b (a :: r1))
        by (eapply Permutation_in; [symmetry; exact P|now left]).
      destruct Hb1 as [E|Hb1]; [exact E|exfalso].
      assert (Ha2 : In a (b :: r2))
        by (eapply Permutation_in; [exact P|now left]).
      destruct Ha2 as [E|Ha2]; [subst; apply Hnotin; now apply in_map|].
      rewrite Forall_forall in Ha, Hb.
      specialize (Ha b Hb1). specialize (Hb a Ha2).
      apply Hnotin. replace (key a) with (key b) by lia. now apply in_map. }
    subst b. f_equal.
    apply IH; trivial. now apply Permutation_cons_inv in P.
Qed.

Lemma sorted_order_irrelevant {A} (key : A -> nat) (l l' : list A) :
  Permutation l l' -> NoDup (map key l) -> sorted key l = sorted key l'.
Proof.
  intros P N. apply (sorted_lists_equal key).
  - apply sorted_ascending.
  - apply sorted_ascending.
  - rewrite sorted_perm, P. symmetry. apply sorted_perm.
  - eapply Permutation_NoDup; [|exact N].
    apply Permutation_map. symmetry. apply sorted_perm.
Qed.

Section RegionShape.
Context {cv : OpenCV}.

(** X12: When no two contours start at the same x-coordinate, the regions do
    not depend on the order in which contour detection reports the
    contours. *)
Theorem regions_independent_of_detection_order
        (mask : Mask) (cnts cnts' : list Contour) :
  Permutation cnts cnts' ->
  NoDup (map (fun c => rect_x (boundingRect c)) cnts) ->
  collectROIs mask (sorted (fun c => rect_x (boundingRect c)) cnts)
  = collectROIs mask (sorted (fun c => rect_x (boundingRect c)) cnts').
Proof.
  intros P N. now rewrite (sorted_order_irrelevant _ P N).
Qed.

Lemma crop_size_bound (mask : Mask) (r : Rect) :
  List.length (crop mask r) <= rect_h r
  /\ Forall (fun row => List.length row <= rect_w r) (crop mask r).
Proof.
  split.
  - destruct r as [[[x y] w] h]. unfold crop. simpl.
    rewrite length_map. apply firstn_le_length.
  - apply Forall_forall. intros row Hrow.
    destruct (crop_rows _ _ _ Hrow) as (full & _ & ->).
    apply firstn_le_length.
Qed.

(** X13: A region is never larger than its bounding rectangle; when the
    rectangle lies within a mask of [W] columns, the region has exactly the
    height and the width of the rectangle, more than 20 rows of more than
    200 pixels. *)
Theorem region_dimensions (mask : Mask) (W : nat) (r : Rect) :
  In r (regionRects mask) ->
  Forall (fun row => List.length row = W) mask ->
  (List.length (crop mask r) <= rect_h r
   /\ Forall (fun row => List.length row <= rect_w r) (crop mask r))
  /\ (rect_x r + rect_w r <= W ->
      rect_y r + rect_h r <= List.length mask ->
      List.length (crop mask r) = rect_h r
      /\ Forall (fun row => List.length row = rect_w r) (crop mask r)
      /\ 20 < List.length (crop mask r)
      /\ Forall (fun row => 200 < List.length row) (crop mask r)).
Proof.
  intros Hr HW. split; [apply crop_size_bound|]. intros Hx Hy.
  assert (Hlarge : 20 < rect_h r /\ 200 < rect_w r).
  { apply large_enough_iff. unfold regionRects in Hr.
    apply filter_In in Hr. tauto. }
  assert (Hrows : List.length (crop mask r) = rect_h r).
  { destruct r as [[[x y] w] h]. unfold crop. simpl in *.
    rewrite length_map, length_firstn, length_skipn. lia. }
  assert (Hcols : Forall (fun row => List.length row = rect_w r) (crop mask r)).
  { apply Forall_forall. intros row Hrow.
    destruct (crop_rows _ _ _ Hrow) as (full & Hfull & ->).
    rewrite Forall_forall in HW. specialize (HW full Hfull).
    rewrite length_firstn, length_skipn. lia. }
  split; [exact Hrows|]. split; [exact Hcols|]. split; [lia|].
  eapply Forall_impl; [|exact Hcols]. simpl. intros row ->. tauto.
Qed.

End RegionShape.

Lemma regions_independent_of_detection_order_witness :
  collectROIs (cv := Synthetic.two_blobs) Synthetic.left_roi
    (sorted (fun c => rect_x c) [(300, 0, 210, 25); (10, 0, 250, 25)])
  = collectROIs (cv := Synthetic.two_blobs) Synthetic.left_roi
      (sorted (fun c => rect_x c) [(10, 0, 250, 25); (300, 0, 210, 25)]).
Proof.
  apply (@regions_independent_of_detection_order Synthetic.two_blobs).
  - apply perm_swap.
  - simpl. repeat constructor; simpl; intuition discriminate.
Defined.

Lemma region_dimensions_witness :
  List.length
    (crop (repeat (repeat 255%Z 520) 30) (10, 0, 250, 25)) = 25
  /\ Forall (fun row => List.length row = 250)
       (crop (repeat (repeat 255%Z 520) 30) (10, 0, 250, 25)).
Proof.
  destruct (@region_dimensions Synthetic.two_blobs
              (repeat (repeat 255%Z 520) 30) 520 (10, 0, 250, 25))
    as (_ & Hexact).
  - vm_compute. left. reflexivity.
  - apply Forall_forall. intros row Hrow. apply repeat_spec in Hrow.
    subst row. apply repeat_length.
  - destruct Hexact as (Hrows & Hcols & _).
    + simpl. lia.
    + rewrite repeat_length. simpl. lia.
    + split; assumption.
Defined.

(* ================================================================== *)
(** * Further properties of the pipeline *)

Section RunProperties.
Context {cv : OpenCV} {co : Collaborators}.

(** X14: When recognition succeeds on every region, [getPhraseStrings] returns
    one phrase for each region, in the order of the regions and as the
    recogniser gave it, after calling the recogniser once on each region in
    that order. *)
Theorem getPhraseStrings_one_phrase_per_region
        (img : Frame) (rois : list Mask) (texts : list string)
        (log : list event) :
  getPhraseROIs img = Return rois ->
  Forall2 (fun roi s => image_to_string roi = Return s) rois texts ->
  getPhraseStrings img log = (Return texts, log ++ map EvRecognize rois)
  /\ List.length texts = List.length rois.
Proof.
  intros Hr Hall. split.
  - unfold getPhraseStrings, bind, lift. rewrite Hr.
    now rewrite (recognizeAll_ok Hall).
  - symmetry. eapply Forall2_length. exact Hall.
Qed.

Lemma recognitionStage_log_prefix :
  exists rois,
    snd (recognitionStage []) = EvGrab 2 :: map EvRecognize rois
    /\ (forall e, grab 2 = Raised e -> rois = [])
    /\ (forall img all,
          grab 2 = Return img -> getPhraseROIs img = Return all ->
          exists n, rois = firstn n all).
Proof.
  unfold recognitionStage, getPhraseStrings, getScreenshot, bind, call, lift.
  cbn -[getPhraseROIs recognizeAll].
  destruct (grab 2) as [img|e].
  - destruct (getPhraseROIs_returns img) as [rois Hr]. rewrite Hr.
    destruct (recognizeAll_log rois [] [EvGrab 2]) as [n Hn].
    exists (firstn n rois). split; [|split].
    + destruct (recognizeAll rois [] [EvGrab 2]) as [[phrases|e] log];
        simpl in Hn; subst log; reflexivity.
    + intros e He. discriminate.
    + intros img' all Hg Hall. injection Hg as <-.
      rewrite Hr in Hall. injection Hall as <-. now exists n.
  - exists []. split; [reflexivity|]. split; [reflexivity|].
    intros img all Hg. discriminate.
Qed.

Lemma alerts_at_most_one (ss : list string) : List.length (alerts ss) <= 1.
Proof.
  rewrite alerts_after_recognition.
  destruct (fst (recognitionStage [])) as [phrases|e]; simpl; [|lia].
  destruct (hasMatchingPhrase phrases ss); simpl; lia.
Qed.

Lemma runOCR_log_split (ss : list string) :
  snd (runOCR ss []) = snd (recognitionStage []) ++ alerts ss.
Proof.
  rewrite alerts_after_recognition, runOCR_after_recognition.
  destruct (recognitionStage []) as [[phrases|e] log]; simpl;
    [|now rewrite app_nil_r].
  destruct (hasMatchingPhrase phrases ss); simpl;
    [reflexivity|now rewrite app_nil_r].
Qed.

(** X15: The external calls of a run come in a fixed order: one capture of
    monitor 2 first, then recognition calls on an initial part of the
    regions of the captured frame, in their order, then at most one alert,
    last.  Nothing is recognised when the capture fails. *)
Theorem runOCR_call_order (ss : list string) :
  exists rois,
    snd (runOCR ss []) = EvGrab 2 :: map EvRecognize rois ++ alerts ss
    /\ List.length (alerts ss) <= 1
    /\ (forall e, grab 2 = Raised e -> rois = [])
    /\ (forall img all,
          grab 2 = Return img -> getPhraseROIs img = Return all ->
          exists n, rois = firstn n all).
Proof.
  destruct recognitionStage_log_prefix as (rois & Hlog & Hfail & Hpre).
  exists rois. split; [|split; [apply alerts_at_most_one|now split]].
  now rewrite runOCR_log_split, Hlog.
Qed.

(** X16: A capture that raises ends the run with that error at once: nothing is
    recognised and no alert is raised. *)
Theorem capture_error_aborts_run (ss : list string) (e : exn) :
  grab 2 = Raised e ->
  runOCR ss [] = (Raised e, [EvGrab 2]) /\ alerts ss = [].
Proof.
  intros Hg.
  assert (Hstage : recognitionStage [] = (Raised e, [EvGrab 2])).
  { unfold recognitionStage, getScreenshot, bind, call. now rewrite Hg. }
  split.
  - now rewrite runOCR_after_recognition, Hstage.
  - now rewrite alerts_after_recognition, Hstage.
Qed.

Lemma filter_no_alert_recognition (rois : list Mask) :
  filter (fun ev => negb (is_alert ev)) (map EvRecognize rois)
  = map EvRecognize rois.
Proof. induction rois as [|r l IH]; simpl; [reflexivity|now rewrite IH]. Qed.

Lemma filter_no_alert_alerts (l : list event) :
  filter (fun ev => negb (is_alert ev)) (filter is_alert l) = [].
Proof.
  induction l as [|ev r IH]; simpl; [reflexivity|].
  destruct (is_alert ev) eqn:E; simpl; rewrite ?E; simpl; exact IH.
Qed.

(** X17: The watch-list has no influence on what a run captures and recognises:
    the calls of a run other than the alert are the same for every
    watch-list. *)
Theorem capture_and_recognition_ignore_watch_list (ss ss' : list string) :
  filter (fun ev => negb (is_alert ev)) (snd (runOCR ss []))
  = filter (fun ev => negb (is_alert ev)) (snd (runOCR ss' [])).
Proof.
  assert (H : forall l,
             filter (fun ev => negb (is_alert ev)) (snd (runOCR l []))
             = snd (recognitionStage [])).
  { intros l. rewrite runOCR_log_split, filter_app.
    unfold alerts at 1. rewrite filter_no_alert_alerts, app_nil_r.
    destruct recognitionStage_log as [rois ->]. simpl.
    now rewrite filter_no_alert_recognition. }
  now rewrite !H.
Qed.

Lemma alerts_empty_watch_list : alerts [] = [].
Proof.
  rewrite alerts_after_recognition.
  destruct (fst (recognitionStage [])) as [phrases|e]; [|reflexivity].
  now rewrite hasMatchingPhrase_no_targets.
Qed.

(** X18: Without targets or without regions there is no alert: a run with an
    empty watch-list never alerts, and a run whose frame yields no region
    makes no recognition call and no alert, whatever the watch-list. *)
Theorem no_alert_without_targets_or_regions (ss : list string) :
  alerts [] = []
  /\ (forall img,
        grab 2 = Return img -> getPhraseROIs img = Return [] ->
        runOCR ss [] = (Return tt, [EvGrab 2])).
Proof.
  split; [apply alerts_empty_watch_list|].
  intros img Hg Hr.
  rewrite runOCR_after_recognition,
    (@recognitionStage_ok _ _ img [] [] Hg Hr (Forall2_nil _)).
  reflexivity.
Qed.

(** X19: End to end: when recognition succeeds on every region and the text of
    some region, lower-cased, is an entry of the watch-list, the external
    calls of the run are the capture, one recognition call for each region
    in order, and then exactly one [playsound] call with [block=False]. *)
Theorem run_alerts_on_exact_phrase
        (img : Frame) (rois : list Mask) (texts ss : list string)
        (t : string) :
  grab 2 = Return img ->
  getPhraseROIs img = Return rois ->
  Forall2 (fun roi s => image_to_string roi = Return s) rois texts ->
  In t texts -> In (PyStr.lower t) ss ->
  snd (runOCR ss [])
  = EvGrab 2 :: map EvRecognize rois ++ [EvPlay "quiet_alert.mp3" false]
  /\ alerts ss = [EvPlay "quiet_alert.mp3" false].
Proof.
  intros Hg Hr Hall Ht Hs.
  assert (Hmatch : hasMatchingPhrase texts ss = true).
  { apply hasMatchingPhrase_true_iff.
    exists t, (PyStr.lower t). split; [exact Ht|]. split; [exact Hs|].
    apply exact_pair_meets_cutoff. }
  split.
  - rewrite runOCR_after_recognition, (recognitionStage_ok Hg Hr Hall).
    now rewrite Hmatch.
  - rewrite alerts_after_recognition, (recognitionStage_ok Hg Hr Hall).
    simpl. now rewrite Hmatch.
Qed.

End RunProperties.

Lemma getPhraseStrings_one_phrase_per_region_witness :
  getPhraseStrings (cv := Synthetic.two_blobs)
    (co := Synthetic.reads Synthetic.black_frame "Map") Synthetic.black_frame []
  = (Return ["Map"; "Map"],
     [] ++ map EvRecognize [Synthetic.left_roi; Synthetic.right_roi])
  /\ List.length ["Map"; "Map"]
     = List.length [Synthetic.left_roi; Synthetic.right_roi].
Proof.
  apply (@getPhraseStrings_one_phrase_per_region Synthetic.two_blobs
           (Synthetic.reads Synthetic.black_frame "Map")).
  - vm_compute. reflexivity.
  - repeat constructor.
Defined.

Lemma capture_error_aborts_run_witness :
  runOCR (cv := Synthetic.two_blobs) (co := no_second_monitor) ["map"] []
  = (Raised IndexError, [EvGrab 2])
  /\ alerts (cv := Synthetic.two_blobs) (co := no_second_monitor) ["map"]
     = [].
Proof.
  apply (@capture_error_aborts_run Synthetic.two_blobs no_second_monitor).
  reflexivity.
Defined.

Lemma no_alert_without_targets_or_regions_witness :
  runOCR (cv := Synthetic.detector [(10, 0, 50, 10)])
    (co := Synthetic.reads Synthetic.black_frame "map") ["map"] []
  = (Return tt, [EvGrab 2]).
Proof.
  destruct (@no_alert_without_targets_or_regions
              (Synthetic.detector [(10, 0, 50, 10)])
              (Synthetic.reads Synthetic.black_frame "map") ["map"])
    as [_ H].
  apply (H Synthetic.black_frame); [reflexivity|vm_compute; reflexivity].
Defined.

Lemma run_alerts_on_exact_phrase_witness :
  snd (runOCR (cv := Synthetic.two_blobs)
         (co := Synthetic.reads Synthetic.black_frame "Treasure Map")
         ["sextant"; "treasure map"] [])
  = EvGrab 2 :: map EvRecognize [Synthetic.left_roi; Synthetic.right_roi]
    ++ [EvPlay "quiet_alert.mp3" false]
  /\ alerts (cv := Synthetic.two_blobs)
       (co := Synthetic.reads Synthetic.black_frame "Treasure Map")
       ["sextant"; "treasure map"]
     = [EvPlay "quiet_alert.mp3" false].
Proof.
  apply (@run_alerts_on_exact_phrase Synthetic.two_blobs
           (Synthetic.reads Synthetic.black_frame "Treasure Map")
           Synthetic.black_frame [Synthetic.left_roi; Synthetic.right_roi]
           ["Treasure Map"; "Treasure Map"] ["sextant"; "treasure map"]
           "Treasure Map").
  - reflexivity.
  - vm_compute. reflexivity.
  - repeat constructor.
  - now left.
  - right. now left.
Defined.

(* ================================================================== *)
(** * Properties of the driving loop *)

Lemma high_bit_is_bit_15 (v : Z) : truthy_int (high_bit v) = key_down v.
Proof.
  unfold truthy_int, high_bit, key_down.
  assert (H : Z.land v 0x8000 = if Z.testbit v 15 then 0x8000%Z else 0%Z).
  { apply Z.bits_inj'. intros n Hn. rewrite Z.land_spec.
    change 0x8000%Z with (2 ^ 15)%Z.
    rewrite Z.pow2_bits_eqb by lia.
    destruct (Z.eqb_spec 15 n) as [<-|Hne].
    - rewrite andb_true_r. destruct (Z.testbit v 15).
      + now rewrite Z.pow2_bits_true by lia.
      + now rewrite Z.bits_0.
    - rewrite andb_false_r. destruct (Z.testbit v 15).
      + rewrite Z.pow2_bits_false by lia. reflexivity.
      + now rewrite Z.bits_0. }
  rewrite H. destruct (Z.testbit v 15); reflexivity.
Qed.

Lemma key_down_negative (v : Z) :
  (-32768 <= v < 32768)%Z -> (key_down v = true <-> (v < 0)%Z).
Proof.
  intros Hv. unfold key_down. rewrite Z.testbit_true by lia.
  change (2 ^ 15)%Z with 32768%Z.
  assert (Hq : (v / 32768 = -1 /\ v < 0 \/ v / 32768 = 0 /\ 0 <= v)%Z).
  { pose proof (Z.div_mod v 32768 ltac:(lia)) as E.
    pose proof (Z.mod_pos_bound v 32768 ltac:(lia)) as B. lia. }
  destruct Hq as [[-> Hneg]|[-> Hpos]].
  - split; [intros _; exact Hneg|intros _; reflexivity].
  - split; [intros H; discriminate H|intros H; lia].
Qed.

(** X20: The loop takes a key for down exactly when bit 15 of the state
    returned for it is set, which for a 16-bit signed state is exactly
    when the state is negative; the low bit alone (state 1, pressed since
    the last query) does not count. *)
Theorem key_test_is_the_sign_bit (v : Z) :
  truthy_int (high_bit v) = Z.testbit v 15
  /\ ((-32768 <= v < 32768)%Z ->
      (truthy_int (high_bit v) = true <-> (v < 0)%Z))
  /\ truthy_int (high_bit 1) = false.
Proof.
  split; [apply high_bit_is_bit_15|]. split; [|reflexivity].
  intros Hv. rewrite high_bit_is_bit_15. now apply key_down_negative.
Qed.

Lemma key_test_is_the_sign_bit_witness :
  truthy_int (high_bit (-32767)) = true <-> (-32767 < 0)%Z.
Proof.
  destruct (key_test_is_the_sign_bit (-32767)) as (_ & H & _).
  apply H. lia.
Defined.

Lemma runs_app (a b : list loop_event) : runs (a ++ b) = runs a ++ runs b.
Proof.
  induction a as [|ev r IH]; simpl; [reflexivity|].
  destruct ev; simpl; now rewrite IH.
Qed.

Lemma sleeps_app (a b : list loop_event) :
  sleeps (a ++ b) = sleeps a ++ sleeps b.
Proof.
  induction a as [|ev r IH]; simpl; [reflexivity|].
  destruct ev; simpl; now rewrite IH.
Qed.

Lemma polls_of_app (a b : list loop_event) :
  polls_of (a ++ b) = polls_of a ++ polls_of b.
Proof.
  induction a as [|ev r IH]; simpl; [reflexivity|].
  destruct ev; simpl; now rewrite IH.
Qed.

Section LoopProperties.
Context {cv : OpenCV}.

(** One turn, with the key tests read as bit 15. *)
Lemma mainLoop_turn (ss : list string) (t : tick) (rest : list tick) :
  mainLoop ss (t :: rest)
  = if exits t then (Exited, [Polled VK_BACK])
    else if triggers t then
      match runOCR (co := screen t) ss [] with
      | (Return _, calls) =>
          (fst (mainLoop ss rest),
           [Polled VK_BACK; Polled VK_LSHIFT; Polled VK_LBUTTON]
           ++ [Slept (25 # 100); Ran calls] ++ snd (mainLoop ss rest))
      | (Raised e, calls) =>
          (Crashed e,
           [Polled VK_BACK; Polled VK_LSHIFT; Polled VK_LBUTTON]
           ++ [Slept (25 # 100); Ran calls])
      end
    else
      (fst (mainLoop ss rest),
       [Polled VK_BACK; Polled VK_LSHIFT; Polled VK_LBUTTON]
       ++ [Slept (2 # 100)] ++ snd (mainLoop ss rest)).
Proof.
  cbn [mainLoop]. unfold exits, triggers. rewrite !high_bit_is_bit_15.
  destruct (key_down (key_state t VK_BACK)); [reflexivity|].
  destruct (key_down (key_state t VK_LSHIFT)
            && key_down (key_state t VK_LBUTTON)).
  - destruct (runOCR ss []) as [[u|e] calls]; [|reflexivity].
    destruct (mainLoop ss rest). reflexivity.
  - destruct (mainLoop ss rest). reflexivity.
Qed.

(** The loop when no run raises. *)
Lemma mainLoop_crash_free (ss : list string) (ticks : list tick) :
  crash_free ss ticks ->
  mainLoop ss ticks
  = (if existsb exits ticks then Exited else Looping,
     flat_map (turn_trace ss) (live ticks)
     ++ (if existsb exits ticks then [Polled VK_BACK] else [])).
Proof.
  unfold crash_free.
  induction ticks as [|t rest IH]; intros Hok; [reflexivity|].
  rewrite mainLoop_turn. cbn [existsb live] in *.
  destruct (exits t) eqn:Ex; [reflexivity|].
  inversion Hok as [|? ? Ht Hrest]; subst. specialize (IH Hrest).
  cbn [flat_map orb]. unfold turn_trace at 1. unfold run_log.
  destruct (triggers t) eqn:Tr.
  - specialize (Ht eq_refl). unfold run_returns in Ht.
    destruct (runOCR ss []) as [[u|e] calls]; [|discriminate].
    rewrite IH. cbn [fst snd]. now rewrite <- !app_assoc.
  - rewrite IH. cbn [fst snd]. now rewrite <- !app_assoc.
Qed.

(** The runs of any execution are those of triggered turns, in order. *)
Lemma mainLoop_runs_general (ss : list string) (ticks : list tick) :
  exists n,
    runs (snd (mainLoop ss ticks))
    = map (run_log ss) (filter triggers (firstn n (live ticks))).
Proof.
  induction ticks as [|t rest [n IH]]; [exists 0; reflexivity|].
  rewrite mainLoop_turn. cbn [live].
  destruct (exits t) eqn:Ex; [exists 0; reflexivity|].
  destruct (triggers t) eqn:Tr.
  - destruct (runOCR ss []) as [[u|e] calls] eqn:R.
    + exists (S n). cbn [firstn filter snd]. rewrite Tr. cbn [map].
      unfold run_log at 1. rewrite R. simpl. now rewrite IH.
    + exists 1. cbn [firstn filter snd]. rewrite Tr. cbn [map].
      unfold run_log. rewrite R. reflexivity.
  - exists (S n). cbn [firstn filter snd]. rewrite Tr. simpl. exact IH.
Qed.

(** X21: Once a turn finds the exit key down the loop is over: that turn
    queries no other key and makes no run, and the turns after it have no
    effect.  When no run raises before that, the loop is left normally. *)
Theorem exit_key_ends_the_loop
        (ss : list string) (before after : list tick) (t : tick) :
  exits t = true ->
  mainLoop ss (before ++ t :: after) = mainLoop ss (before ++ [t])
  /\ (Forall (fun b => exits b = false) before ->
      crash_free ss before ->
      mainLoop ss (before ++ t :: after)
      = (Exited, flat_map (turn_trace ss) before ++ [Polled VK_BACK])).
Proof.
  intros Ex. split.
  - induction before as [|b rest IH]; cbn [app].
    + rewrite !mainLoop_turn, Ex. reflexivity.
    + rewrite !mainLoop_turn, IH. reflexivity.
  - intros Hno Hok.
    assert (Hlive : forall l, Forall (fun b => exits b = false) l ->
                      live (l ++ t :: after) = l /\ live l = l
                      /\ existsb exits (l ++ t :: after) = true).
    { induction 1 as [|b l Hb _ (I1 & I2 & I3)]; cbn [app live existsb].
      - now rewrite Ex.
      - rewrite Hb, I1, I2, I3. now repeat split. }
    destruct (Hlive before Hno) as (L1 & L2 & L3).
    rewrite mainLoop_crash_free.
    + now rewrite L1, L3.
    + unfold crash_free in *. now rewrite L1, <- L2.
Qed.

(** X22: [runOCR] is called only in turns that find both trigger keys down and
    the exit key up: the runs of an execution are those of such turns, in
    order, up to the turn where the loop stops; all of them when no run
    raises.  With no such turn the screen is never captured. *)
Theorem runs_only_when_triggered (ss : list string) (ticks : list tick) :
  (exists n,
      runs (snd (mainLoop ss ticks))
      = map (run_log ss) (filter triggers (firstn n (live ticks))))
  /\ (crash_free ss ticks ->
      runs (snd (mainLoop ss ticks))
      = map (run_log ss) (filter triggers (live ticks)))
  /\ (Forall (fun t => triggers t = false) ticks ->
      runs (snd (mainLoop ss ticks)) = []).
Proof.
  split; [apply mainLoop_runs_general|]. split.
  - intros Hok. rewrite (mainLoop_crash_free Hok). cbn [snd].
    rewrite runs_app.
    replace (runs (if existsb exits ticks then [Polled VK_BACK] else []))
      with (@nil (list event)) by (destruct (existsb exits ticks); reflexivity).
    rewrite app_nil_r.
    induction (live ticks) as [|t l IH]; [reflexivity|].
    cbn [flat_map filter]. rewrite runs_app, IH. unfold turn_trace.
    destruct (triggers t); reflexivity.
  - intros Hidle. destruct (mainLoop_runs_general ss ticks) as [n ->].
    rewrite filter_none; [reflexivity|].
    intros t Ht. apply in_window with (k := 0) in Ht.
    assert (Hlive : forall l, In t (live l) -> In t l).
    { induction l as [|b l IH]; cbn [live]; [tauto|].
      destruct (exits b); [intros []|].
      intros [<-|H]; [now left|right; now apply IH]. }
    rewrite Forall_forall in Hidle. apply Hidle, Hlive, Ht.
Qed.

Lemma run_follows_long_sleep (ss : list string) (ticks : list tick) :
  forall before calls rest,
    snd (mainLoop ss ticks) = before ++ Ran calls :: rest ->
    exists before', before = before' ++ [Slept (25 # 100)].
Proof.
  induction ticks as [|t l IH]; intros before calls rest E.
  - destruct before; discriminate.
  - rewrite mainLoop_turn in E.
    destruct (exits t).
    { destruct before as [|x [|y before]]; discriminate. }
    destruct (triggers t).
    + destruct (runOCR ss []) as [[u|e] log]; cbn [snd app] in E;
        (destruct before as [|e1 [|e2 [|e3 [|e4 before]]]];
         try discriminate);
        injection E as <- <- <- <- E.
      * destruct before as [|e5 before].
        -- exists [Polled VK_BACK; Polled VK_LSHIFT; Polled VK_LBUTTON].
           reflexivity.
        -- injection E as <- E.
           destruct (IH before calls rest E) as [b' ->].
           exists (Polled VK_BACK :: Polled VK_LSHIFT :: Polled VK_LBUTTON
                   :: Slept (25 # 100) :: Ran log :: b').
           reflexivity.
      * destruct before as [|e5 [|e6 before]]; [|discriminate|discriminate].
        exists [Polled VK_BACK; Polled VK_LSHIFT; Polled VK_LBUTTON].
        reflexivity.
    + cbn [snd app] in E.
      destruct before as [|e1 [|e2 [|e3 [|e4 before]]]]; try discriminate.
      injection E as <- <- <- <- E.
      destruct (IH before calls rest E) as [b' ->].
      exists (Polled VK_BACK :: Polled VK_LSHIFT :: Polled VK_LBUTTON
              :: Slept (2 # 100) :: b').
      reflexivity.
Qed.

(** X23: Every run comes right after a sleep of a quarter of a second; and,
    no run raising, every turn that does not leave the loop sleeps exactly
    once: that quarter of a second when triggered, a fiftieth of a second
    otherwise. *)
Theorem one_sleep_per_turn (ss : list string) (ticks : list tick) :
  (forall before calls rest,
      snd (mainLoop ss ticks) = before ++ Ran calls :: rest ->
      exists before', before = before' ++ [Slept (25 # 100)])
  /\ (crash_free ss ticks ->
      sleeps (snd (mainLoop ss ticks))
      = map (fun t => if triggers t then (25 # 100)%Q else (2 # 100)%Q)
          (live ticks)).
Proof.
  split; [apply run_follows_long_sleep|].
  intros Hok. rewrite (mainLoop_crash_free Hok). cbn [snd].
  rewrite sleeps_app.
  replace (sleeps (if existsb exits ticks then [Polled VK_BACK] else []))
    with (@nil Q) by (destruct (existsb exits ticks); reflexivity).
  rewrite app_nil_r.
  induction (live ticks) as [|t l IH]; [reflexivity|].
  cbn [flat_map map]. rewrite sleeps_app, IH. unfold turn_trace.
  destruct (triggers t); reflexivity.
Qed.

End LoopProperties.

Lemma live_all (l : list tick) :
  Forall (fun b => exits b = false) l -> live l = l.
Proof.
  induction 1 as [|b l Hb _ IH]; cbn [live]; [reflexivity|].
  now rewrite Hb, IH.
Qed.

Lemma live_incl (t : tick) (l : list tick) : In t (live l) -> In t l.
Proof.
  induction l as [|b l IH]; cbn [live]; [tauto|].
  destruct (exits b); [intros []|].
  intros [<-|H]; [now left|right; now apply IH].
Qed.

Lemma filter_firstn_length {A} (f : A -> bool) (n : nat) (l : list A) :
  List.length (filter f (firstn n l)) <= List.length (filter f l).
Proof.
  revert n. induction l as [|a l IH]; intros [|n]; simpl; try lia.
  specialize (IH n). destruct (f a); simpl; lia.
Qed.

Section LoopOutcomes.
Context {cv : OpenCV}.

(** X24: A run that raises stops the loop with that error, right after the
    run: no later turn queries a key, sleeps or runs.  Nothing in the loop
    catches the error. *)
Theorem run_error_stops_the_loop
        (ss : list string) (before after : list tick) (t : tick) (e : exn) :
  Forall (fun b => exits b = false) before ->
  crash_free ss before ->
  exits t = false -> triggers t = true ->
  fst (runOCR (co := screen t) ss []) = Raised e ->
  mainLoop ss (before ++ t :: after)
  = (Crashed e, flat_map (turn_trace ss) before ++ turn_trace ss t).
Proof.
  intros Hno Hok Ex Tr He. unfold crash_free in Hok.
  rewrite (live_all Hno) in Hok.
  induction Hno as [|b l Hb _ IH]; cbn [app flat_map].
  - rewrite mainLoop_turn, Ex, Tr. unfold turn_trace, run_log.
    rewrite Tr. destruct (runOCR ss []) as [[u|e'] calls];
      simpl in He; [discriminate|].
    injection He as ->. reflexivity.
  - inversion Hok as [|? ? Hrun Hok']; subst. specialize (IH Hok').
    rewrite mainLoop_turn, Hb, IH. unfold turn_trace, run_log.
    destruct (triggers b) eqn:Tb.
    + specialize (Hrun eq_refl). unfold run_returns in Hrun.
      destruct (runOCR (co := screen b) ss []) as [[u|e'] calls];
        simpl in Hrun; [|discriminate Hrun].
      cbn [fst snd]. now rewrite <- !app_assoc.
    + cbn [fst snd]. now rewrite <- !app_assoc.
Qed.

Lemma run_log_alerts (ss : list string) (t : tick) :
  filter is_alert (run_log ss t) = alerts (co := screen t) ss.
Proof. reflexivity. Qed.

(** X25: Alerts are bounded by the trigger: over any execution, the number of
    alerts raised is at most the number of turns that found both trigger
    keys down before the exit key. *)
Theorem at_most_one_alert_per_trigger (ss : list string) (ticks : list tick) :
  List.length (filter is_alert (List.concat (runs (snd (mainLoop ss ticks)))))
  <= List.length (filter triggers (live ticks)).
Proof.
  destruct (mainLoop_runs_general ss ticks) as [n ->].
  etransitivity; [|apply (filter_firstn_length triggers n)].
  induction (filter triggers (firstn n (live ticks))) as [|t l IH];
    [simpl; lia|].
  cbn [map List.concat]. rewrite filter_app, length_app, run_log_alerts.
  pose proof (alerts_at_most_one (co := screen t) ss). simpl. lia.
Qed.

(** X26: With an empty configuration file the program never alerts, whatever
    the keys and the screens. *)
Theorem empty_config_never_alerts (ticks : list tick) :
  filter is_alert (List.concat (runs (snd (main "" ticks)))) = [].
Proof.
  unfold main. change (getSearchStrings "") with (@nil string).
  destruct (mainLoop_runs_general [] ticks) as [n ->].
  induction (filter triggers (firstn n (live ticks))) as [|t l IH];
    [reflexivity|].
  cbn [map List.concat]. rewrite filter_app, run_log_alerts, IH.
  now rewrite alerts_empty_watch_list.
Qed.

End LoopOutcomes.

Lemma exit_key_ends_the_loop_witness :
  mainLoop (cv := Synthetic.two_blobs) ["map"]
    ([Keys.idle; Keys.triggered] ++ Keys.leaving :: [Keys.triggered])
  = (Exited,
     flat_map (turn_trace (cv := Synthetic.two_blobs) ["map"])
       [Keys.idle; Keys.triggered]
     ++ [Polled VK_BACK]).
Proof.
  destruct (@exit_key_ends_the_loop Synthetic.two_blobs ["map"]
              [Keys.idle; Keys.triggered] [Keys.triggered] Keys.leaving)
    as [_ H].
  - reflexivity.
  - apply H.
    + repeat constructor.
    + repeat constructor; intros _; vm_compute; reflexivity.
Defined.

Lemma runs_only_when_triggered_witness :
  runs (snd (mainLoop (cv := Synthetic.two_blobs) ["map"]
               [Keys.idle; Keys.triggered; Keys.idle]))
  = map (run_log (cv := Synthetic.two_blobs) ["map"])
      (filter triggers (live [Keys.idle; Keys.triggered; Keys.idle]))
  /\ runs (snd (mainLoop (cv := Synthetic.two_blobs) ["map"]
                  [Keys.idle; Keys.idle]))
     = [].
Proof.
  split.
  - destruct (@runs_only_when_triggered Synthetic.two_blobs ["map"]
                [Keys.idle; Keys.triggered; Keys.idle]) as (_ & H & _).
    apply H. repeat constructor; intros _; vm_compute; reflexivity.
  - destruct (@runs_only_when_triggered Synthetic.two_blobs ["map"]
                [Keys.idle; Keys.idle]) as (_ & _ & H).
    apply H. repeat constructor.
Defined.

Lemma one_sleep_per_turn_witness :
  sleeps (snd (mainLoop (cv := Synthetic.two_blobs) ["map"]
                 [Keys.idle; Keys.triggered; Keys.leaving; Keys.idle]))
  = map (fun t => if triggers t then (25 # 100)%Q else (2 # 100)%Q)
      (live [Keys.idle; Keys.triggered; Keys.leaving; Keys.idle]).
Proof.
  destruct (@one_sleep_per_turn Synthetic.two_blobs ["map"]
              [Keys.idle; Keys.triggered; Keys.leaving; Keys.idle])
    as [_ H].
  apply H. repeat constructor; intros _; vm_compute; reflexivity.
Defined.

Lemma run_error_stops_the_loop_witness :
  mainLoop (cv := Synthetic.two_blobs) ["map"]
    ([Keys.idle] ++ Keys.failing :: [Keys.triggered; Keys.leaving])
  = (Crashed (CollaboratorError "pytesseract"),
     flat_map (turn_trace (cv := Synthetic.two_blobs) ["map"]) [Keys.idle]
     ++ turn_trace (cv := Synthetic.two_blobs) ["map"] Keys.failing).
Proof.
  apply (@run_error_stops_the_loop Synthetic.two_blobs).
  - repeat constructor.
  - repeat constructor.
  - reflexivity.
  - reflexivity.
  - vm_compute. reflexivity.
Defined.

Example loop_trace :
  mainLoop (cv := Synthetic.two_blobs) ["map"]
    [Keys.idle; Keys.triggered; Keys.leaving; Keys.triggered]
  = (Exited,
     [Polled VK_BACK; Polled VK_LSHIFT; Polled VK_LBUTTON; Slept (2 # 100);
      Polled VK_BACK; Polled VK_LSHIFT; Polled VK_LBUTTON; Slept (25 # 100);
      Ran [EvGrab 2; EvRecognize Synthetic.left_roi;
           EvRecognize Synthetic.right_roi; EvPlay "quiet_alert.mp3" false];
      Polled VK_BACK]).
Proof. vm_compute. reflexivity. Qed.
